(** * baikal-adapters: the Binance bulk-data adapter

    A shallow embedding of [baikal.adapters.binance] and the properties its
    specification states about it.

    - [Calendar]: the part of Python's [datetime], [dateutil.relativedelta]
      and string formatting that the adapter calls.
    - [Granularity]: [_data_granularity.py].
    - [Frames]: the part of polars the adapter calls, over lists of rows.
    - [Adapter]: [adapter.py]. *)

From Stdlib Require Import ZArith Lia String Ascii List Bool Sorted.
From stdpp Require Import base decidable option list strings sorting.
Import ListNotations.

Local Open Scope Z_scope.

(* ===================================================================== *)
(** * Errors raised by the code *)
(* ===================================================================== *)

(** The exceptions the modelled code can raise. *)
Inductive error : Type :=
| OverflowError      (* date value out of range *)
| ValueError         (* year out of range *)
| ZeroDivisionError  (* float division by zero *)
| LoopBound.         (* no Python exception: the bound the model puts on
                        the iterations of a loop was reached *)

Inductive result (A : Type) : Type :=
| Ok (a : A)
| Raise (e : error).
Arguments Ok {A} a.
Arguments Raise {A} e.

#[global] Instance result_ret : MRet result := fun _ a => Ok a.
#[global] Instance result_bind : MBind result := fun _ _ k r =>
  match r with
  | Ok a => k a
  | Raise e => Raise e
  end.

#[global] Instance error_eq_dec : EqDecision error.
Proof. solve_decision. Defined.

(* ===================================================================== *)
(** * Calendar *)
(* ===================================================================== *)

Module Calendar.

(** [datetime.date]: a year, a month and a day. *)
Record date : Type := Date { year : Z; month : Z; day : Z }.

#[global] Instance date_eq_dec : EqDecision date.
Proof. solve_decision. Defined.

Definition MINYEAR : Z := 1.
Definition MAXYEAR : Z := 9999.

(** [_is_leap]: year % 4 == 0 and (year % 100 != 0 or year % 400 == 0) *)
Definition _is_leap (y : Z) : bool :=
  (y mod 4 =? 0) && (negb (y mod 100 =? 0) || (y mod 400 =? 0)).

(** [_DAYS_IN_MONTH] *)
Definition _DAYS_IN_MONTH (m : Z) : Z :=
  match m with
  | 1 => 31 | 2 => 28 | 3 => 31 | 4 => 30 | 5 => 31 | 6 => 30
  | 7 => 31 | 8 => 31 | 9 => 30 | 10 => 31 | 11 => 30 | 12 => 31
  | _ => -1
  end.

(** [_DAYS_BEFORE_MONTH] *)
Definition _DAYS_BEFORE_MONTH (m : Z) : Z :=
  match m with
  | 1 => 0 | 2 => 31 | 3 => 59 | 4 => 90 | 5 => 120 | 6 => 151
  | 7 => 181 | 8 => 212 | 9 => 243 | 10 => 273 | 11 => 304 | 12 => 334
  | _ => -1
  end.

Definition _days_in_month (y m : Z) : Z :=
  if (m =? 2) && _is_leap y then 29 else _DAYS_IN_MONTH m.

Definition _days_before_year (y : Z) : Z :=
  let y' := y - 1 in y' * 365 + y' / 4 - y' / 100 + y' / 400.

Definition _days_before_month (y m : Z) : Z :=
  _DAYS_BEFORE_MONTH m + (if (m >? 2) && _is_leap y then 1 else 0).

(** The dates Python can construct. *)
Definition valid_dateb (d : date) : bool :=
  (MINYEAR <=? year d) && (year d <=? MAXYEAR)
  && (1 <=? month d) && (month d <=? 12)
  && (1 <=? day d) && (day d <=? _days_in_month (year d) (month d)).

Definition valid_date (d : date) : Prop := valid_dateb d = true.

(** A month and a day of that month, in whatever year. *)
Definition in_calendar (d : date) : Prop :=
  1 <= month d <= 12 /\ 1 <= day d <= _days_in_month (year d) (month d).

(** [date.toordinal] *)
Definition toordinal (d : date) : Z :=
  _days_before_year (year d) + _days_before_month (year d) (month d) + day d.

(** Comparison of two dates: Python compares (year, month, day). *)
Definition date_ltb (a b : date) : bool :=
  (year a <? year b)
  || ((year a =? year b)
      && ((month a <? month b) || ((month a =? month b) && (day a <? day b)))).

Definition date_geb (a b : date) : bool := negb (date_ltb a b).

(** [d + relativedelta(days=1)]: the replaced date is [d] itself, to which
    [timedelta(days=1)] is added; past 9999-12-31 the addition raises
    OverflowError. *)
Definition add_relativedelta_days1 (d : date) : result date :=
  if day d <? _days_in_month (year d) (month d)
  then Ok (Date (year d) (month d) (day d + 1))
  else if month d <? 12
  then Ok (Date (year d) (month d + 1) 1)
  else if year d <? MAXYEAR
  then Ok (Date (year d + 1) 1 1)
  else Raise OverflowError.

(** [d + relativedelta(months=1)]: the month is advanced and wrapped, the
    day clipped to the length of the new month; replacing the year by 10000
    raises ValueError. *)
Definition add_relativedelta_months1 (d : date) : result date :=
  let m1 := month d + 1 in
  let '(y, m) := if m1 >? 12 then (year d + 1, m1 - 12) else (year d, m1) in
  let dd := Z.min (_days_in_month y m) (day d) in
  if y >? MAXYEAR then Raise ValueError else Ok (Date y m dd).

(** [datetime.datetime]; [tzinfo] is the UTC offset of the (fixed-offset)
    time zone in microseconds. *)
Record datetime : Type := Datetime {
  dt_date : date;
  hour : Z;
  minute : Z;
  second : Z;
  microsecond : Z;
  tzinfo : Z
}.

#[global] Instance datetime_eq_dec : EqDecision datetime.
Proof. solve_decision. Defined.

(** [datetime(y, m, d, tzinfo=tz)] *)
Definition midnight (d : date) (tz : Z) : datetime := Datetime d 0 0 0 0 tz.

Definition day_us : Z := 86400000000.

Definition valid_datetimeb (t : datetime) : bool :=
  valid_dateb (dt_date t)
  && (0 <=? hour t) && (hour t <? 24)
  && (0 <=? minute t) && (minute t <? 60)
  && (0 <=? second t) && (second t <? 60)
  && (0 <=? microsecond t) && (microsecond t <? 1000000)
  && (- day_us <? tzinfo t) && (tzinfo t <? day_us).

Definition valid_datetime (t : datetime) : Prop := valid_datetimeb t = true.

(** Microseconds since midnight. *)
Definition time_us (t : datetime) : Z :=
  ((hour t * 60 + minute t) * 60 + second t) * 1000000 + microsecond t.

(** Microseconds since 1970-01-01T00:00:00 UTC (ordinal 719163). *)
Definition timestamp_us (t : datetime) : Z :=
  (toordinal (dt_date t) - 719163) * day_us + time_us t - tzinfo t.

(** [a < b] on aware datetimes. *)
Definition dt_ltb (a b : datetime) : bool := timestamp_us a <? timestamp_us b.

(** ** Integer formatting *)

Definition digit_char (d : Z) : ascii :=
  ascii_of_nat (48 + Z.to_nat d).

Fixpoint digits (fuel : nat) (n : Z) (acc : string) : string :=
  match fuel with
  | O => acc
  | S f =>
      let acc' := String (digit_char (n mod 10)) acc in
      if n / 10 =? 0 then acc' else digits f (n / 10) acc'
  end.

(** [str(n)] for [0 <= n]. *)
Definition str_int (n : Z) : string :=
  digits (S (Z.to_nat (Z.log2 n))) n EmptyString.

Fixpoint zeros (k : nat) : string :=
  match k with
  | O => EmptyString
  | S k' => String "0" (zeros k')
  end.

(** [format(n, "0{w}d")] for [0 <= n]: at least [w] digits, padded on the
    left with zeros. *)
Definition format_0d (w : nat) (n : Z) : string :=
  let s := str_int n in
  (zeros (w - String.length s) ++ s)%string.

End Calendar.

(* ===================================================================== *)
(** * _data_granularity.py *)
(* ===================================================================== *)

Module Granularity.
Import Calendar.

Local Open Scope string_scope.

(** [class BinanceDataGranularity(StrEnum)] *)
Inductive BinanceDataGranularity : Type := DAILY | MONTHLY.

#[global] Instance granularity_eq_dec : EqDecision BinanceDataGranularity.
Proof. solve_decision. Defined.

Definition granularity_str (self : BinanceDataGranularity) : string :=
  match self with
  | DAILY => "daily"
  | MONTHLY => "monthly"
  end.

(** [BinanceDataGranularity.next_chunk]. The enumeration is closed, so the
    ValueError after the [match] is never raised. *)
Definition next_chunk (self : BinanceDataGranularity) (date_time : datetime)
  : result datetime :=
  match self with
  | DAILY =>
      next_day ← add_relativedelta_days1 (dt_date date_time);
      mret (midnight (Date (year next_day) (month next_day) (day next_day))
                     (tzinfo date_time))
  | MONTHLY =>
      next_month ← add_relativedelta_months1 (dt_date date_time);
      mret (midnight (Date (year next_month) (month next_month) 1)
                     (tzinfo date_time))
  end.

(** [BinanceDataGranularity.file_date] *)
Definition file_date (self : BinanceDataGranularity) (d : date) : string :=
  match self with
  | DAILY =>
      format_0d 2 (year d) ++ "-" ++ format_0d 2 (month d)
        ++ "-" ++ format_0d 2 (day d)
  | MONTHLY =>
      format_0d 2 (year d) ++ "-" ++ format_0d 2 (month d)
  end.

(** The boundaries reached by applying [next_chunk] [n] times from [t]. *)
Fixpoint boundaries (self : BinanceDataGranularity) (n : nat) (t : datetime)
  : result (list datetime) :=
  match n with
  | O => mret []
  | S n' =>
      t' ← next_chunk self t;
      ts ← boundaries self n' t';
      mret (t' :: ts)
  end.

(** The key the specification describes: a four-digit year, then the
    two-digit month and, for Daily, the two-digit day. *)
Definition spec_file_date_key (level : BinanceDataGranularity) (d : date)
  : string :=
  match level with
  | DAILY =>
      format_0d 4 (year d) ++ "-" ++ format_0d 2 (month d)
        ++ "-" ++ format_0d 2 (day d)
  | MONTHLY =>
      format_0d 4 (year d) ++ "-" ++ format_0d 2 (month d)
  end.

End Granularity.

(* ===================================================================== *)
(** * enums.py and config.py *)
(* ===================================================================== *)

Module Enums.

Local Open Scope string_scope.

(** [class BinanceDataInterval(StrEnum)] *)
Inductive BinanceDataInterval : Type :=
| ONE_SECOND | ONE_MINUTE | THREE_MINUTES | FIVE_MINUTES | FIFTEEN_MINUTES
| THIRTY_MINUTES | ONE_HOUR | TWO_HOURS | FOUR_HOURS | SIX_HOURS
| EIGHT_HOURS | TWELVE_HOURS | ONE_DAY | THREE_DAYS | ONE_WEEK | ONE_MONTH.

Definition interval_str (i : BinanceDataInterval) : string :=
  match i with
  | ONE_SECOND => "1s" | ONE_MINUTE => "1m" | THREE_MINUTES => "3m"
  | FIVE_MINUTES => "5m" | FIFTEEN_MINUTES => "15m"
  | THIRTY_MINUTES => "30m" | ONE_HOUR => "1h" | TWO_HOURS => "2h"
  | FOUR_HOURS => "4h" | SIX_HOURS => "6h" | EIGHT_HOURS => "8h"
  | TWELVE_HOURS => "12h" | ONE_DAY => "1d" | THREE_DAYS => "3d"
  | ONE_WEEK => "1w" | ONE_MONTH => "1mo"
  end.

(** [class BinanceDataType(StrEnum)] *)
Inductive BinanceDataType : Type := AGGREGATED_TRADES | OHLCV | TRADES.

Definition data_type_str (t : BinanceDataType) : string :=
  match t with
  | AGGREGATED_TRADES => "aggTrades"
  | OHLCV => "klines"
  | TRADES => "trades"
  end.

(** [class BinanceInstrumentType(StrEnum)] *)
Inductive BinanceInstrumentType : Type := FUTURES | OPTION | SPOT.

Definition instrument_type_str (t : BinanceInstrumentType) : string :=
  match t with
  | FUTURES => "futures"
  | OPTION => "option"
  | SPOT => "spot"
  end.

#[global] Instance interval_eq_dec : EqDecision BinanceDataInterval.
Proof. solve_decision. Defined.
#[global] Instance data_type_eq_dec : EqDecision BinanceDataType.
Proof. solve_decision. Defined.
#[global] Instance instrument_type_eq_dec : EqDecision BinanceInstrumentType.
Proof. solve_decision. Defined.

(** [class BinanceDataConfig] *)
Record BinanceDataConfig : Type := {
  data_type : BinanceDataType;
  instrument_type : BinanceInstrumentType;
  interval : BinanceDataInterval;
  symbol : string
}.

End Enums.

(* ===================================================================== *)
(** * Frames: the polars operations the adapter calls *)
(* ===================================================================== *)

(** A frame is the list of its rows and a nullable cell is an [option].
    A [Datetime] cell is its number of microseconds since the epoch. The
    values of a [Float64] column are kept abstract in a type [V] with a
    decidable equality, which is all the adapter asks of them. *)

Module Frames.
Import Calendar Enums.

(** The [time_unit] argument of [from_epoch]. *)
Inductive TimeUnit : Type := us | ms.

(** The expression [from_epoch(column, time_unit)]. *)
Record Expr : Type := from_epoch { column : string; time_unit : TimeUnit }.

(** A raw epoch integer read in [u], as microseconds. *)
Definition epoch_us (u : TimeUnit) (v : Z) : Z :=
  match u with
  | us => v
  | ms => v * 1000
  end.

(** The interval strings as polars parses them: a number of calendar
    months and a fixed number of microseconds. *)
Record Duration : Type := { months : Z; micros : Z }.

Definition parse_interval (i : BinanceDataInterval) : Duration :=
  match i with
  | ONE_SECOND => {| months := 0; micros := 1000000 |}
  | ONE_MINUTE => {| months := 0; micros := 60000000 |}
  | THREE_MINUTES => {| months := 0; micros := 180000000 |}
  | FIVE_MINUTES => {| months := 0; micros := 300000000 |}
  | FIFTEEN_MINUTES => {| months := 0; micros := 900000000 |}
  | THIRTY_MINUTES => {| months := 0; micros := 1800000000 |}
  | ONE_HOUR => {| months := 0; micros := 3600000000 |}
  | TWO_HOURS => {| months := 0; micros := 7200000000 |}
  | FOUR_HOURS => {| months := 0; micros := 14400000000 |}
  | SIX_HOURS => {| months := 0; micros := 21600000000 |}
  | EIGHT_HOURS => {| months := 0; micros := 28800000000 |}
  | TWELVE_HOURS => {| months := 0; micros := 43200000000 |}
  | ONE_DAY => {| months := 0; micros := 86400000000 |}
  | THREE_DAYS => {| months := 0; micros := 259200000000 |}
  | ONE_WEEK => {| months := 0; micros := 604800000000 |}
  | ONE_MONTH => {| months := 1; micros := 0 |}
  end.

(** Adding [n >= 0] calendar months to a date: the month is advanced and
    wrapped once, the day clipped to the length of the new month. *)
Definition add_month (d : date) (n : Z) : date :=
  let y := year d + n / 12 in
  let m := month d + n mod 12 in
  let '(y, m) := if m >? 12 then (y + 1, m - 12) else (y, m) in
  Date y m (Z.min (day d) (_days_in_month y m)).

(** The instant [k] intervals after [start]: the months are added to the
    local date of [start], the fixed part to the instant. *)
Definition offset_by (every : Duration) (k : Z) (start : datetime) : Z :=
  let shifted :=
    if months every >? 0
    then Datetime (add_month (dt_date start) (k * months every))
           (hour start) (minute start) (second start) (microsecond start)
           (tzinfo start)
    else start in
  timestamp_us shifted + k * micros every.

(** The loop of [datetime_range(..., closed="left")]: tick [k] is pushed
    while it is before [stop]. *)
Fixpoint range_loop (fuel : nat) (every : Duration) (start : datetime)
    (stop : Z) (k : Z) : list Z :=
  match fuel with
  | O => []
  | S fuel' =>
      let t := offset_by every k start in
      if t <? stop
      then t :: range_loop fuel' every start stop (k + 1)
      else []
  end.

(** A bound on the number of ticks in a span: every interval of
    [BinanceDataInterval] lasts at least one second. *)
Definition range_fuel (span : Z) : nat := Z.to_nat (span / 1000000 + 2).

(** [datetime_range(start, end, interval, closed="left")]; a range whose
    start is after its end is empty. *)
Definition datetime_range (start stop : datetime) (i : BinanceDataInterval)
  : list Z :=
  if timestamp_us start >? timestamp_us stop then []
  else range_loop (range_fuel (timestamp_us stop - timestamp_us start))
         (parse_interval i) start (timestamp_us stop) 0.

(** [coalesce(a, b)]: the first value that is not null. *)
Definition coalesce {A} (a b : option A) : option A :=
  match a with
  | Some _ => a
  | None => b
  end.

(** [a.ne_missing(b)]: inequality where null is a value like another. *)
Definition ne_missing {A} `{!EqDecision A} (a b : option A) : bool :=
  bool_decide (a ≠ b).

(** [a.is_not_null()] *)
Definition is_not_null {A} (a : option A) : bool :=
  match a with
  | Some _ => true
  | None => false
  end.

(** [left.join(right, how="left", on=key, coalesce=False,
    maintain_order="left")]: every left row, in order, paired with each
    right row of the same key, or with nulls when there is none. A null key
    on the right matches nothing. *)
Definition matching {L R} (lkey : L -> Z) (rkey : R -> option Z)
    (x : L) (right : list R) : list R :=
  filter (fun y => rkey y = Some (lkey x)) right.

Definition join_left {L R} (lkey : L -> Z) (rkey : R -> option Z)
    (left : list L) (right : list R) : list (L * option R) :=
  left ≫= (fun x =>
    match matching lkey rkey x right with
    | [] => [(x, None)]
    | matched => (fun y => (x, Some y)) <$> matched
    end).

End Frames.

(* ===================================================================== *)
(** * adapter.py *)
(* ===================================================================== *)

Module Adapter.
Import Calendar Granularity Enums Frames.

Local Open Scope string_scope.
Local Open Scope Z_scope.

Section Rows.
Context {V : Type}.

(** A row of the headerless CSV file of an archive, read with the raw
    schema: both timestamps are Int64 and a last column is ignored. *)
Record RawRow : Type := {
  raw_date_time : option Z;
  raw_open : option V;
  raw_high : option V;
  raw_low : option V;
  raw_close : option V;
  raw_volume : option V;
  raw_close_date_time : option Z;
  raw_quote_volume : option V;
  raw_trades_count : option Z;
  raw_taker_buy_base_volume : option V;
  raw_taker_buy_quote_volume : option V;
  raw_ignore : option Z
}.

(** [class BinanceOHLCV(TradeModel)] of _ohlcv.py *)
Record BinanceOHLCV : Type := {
  b_date_time : option Z;
  b_open : option V;
  b_high : option V;
  b_low : option V;
  b_close : option V;
  b_volume : option V;
  b_close_date_time : option Z;
  b_quote_volume : option V;
  b_trades_count : option Z;
  b_taker_buy_base_volume : option V;
  b_taker_buy_quote_volume : option V
}.

(** A row over the columns of [OHLCV] that the adapter names: the key and
    the five core fields. The class [OHLCV] is declared in
    baikal.common.trade.models, which is not part of these sources; columns
    it may have beyond these six are left out. *)
Record OHLCVRow : Type := {
  date_time : option Z;
  open : option V;
  high : option V;
  low : option V;
  close : option V;
  volume : option V
}.

(** A row of [filled_data]: the tick of the timeline, the five coalesced
    columns, and the row each source contributed, if any. The columns
    suffixed [_daily] and [_monthly] are read from the latter two. *)
Record Filled : Type := {
  f_date_time : Z;
  f_open : option V;
  f_high : option V;
  f_low : option V;
  f_close : option V;
  f_volume : option V;
  daily : option OHLCVRow;
  monthly : option OHLCVRow
}.

Definition date_time_daily (f : Filled) : option Z := daily f ≫= date_time.
Definition open_daily (f : Filled) : option V := daily f ≫= open.
Definition high_daily (f : Filled) : option V := daily f ≫= high.
Definition low_daily (f : Filled) : option V := daily f ≫= low.
Definition close_daily (f : Filled) : option V := daily f ≫= close.
Definition volume_daily (f : Filled) : option V := daily f ≫= volume.

Definition date_time_monthly (f : Filled) : option Z := monthly f ≫= date_time.
Definition open_monthly (f : Filled) : option V := monthly f ≫= open.
Definition high_monthly (f : Filled) : option V := monthly f ≫= high.
Definition low_monthly (f : Filled) : option V := monthly f ≫= low.
Definition close_monthly (f : Filled) : option V := monthly f ≫= close.
Definition volume_monthly (f : Filled) : option V := monthly f ≫= volume.

(** A path, as the list of its components. *)
Definition Path : Type := list string.

(** The files below the root: an archive that exists is given by the rows
    [read_csv] reads from its CSV member. *)
Definition Store : Type := Path -> option (list RawRow).

(** What a call does besides returning: the paths it looks up and the
    progress it reports, [Update a b] standing for the completed
    percentage [(a / b) * 100]. *)
Inductive event : Type :=
| Lookup (p : Path)
| Update (loaded_seconds interval_seconds : Z).

(** [class BinanceAdapter] *)
Record BinanceAdapter : Type := { _root : Path }.

(** [BinanceAdapter._from_unix] *)
Definition _from_unix (config : BinanceDataConfig) (unix_column : string)
    (d : date) : Expr :=
  if bool_decide (instrument_type config = SPOT)
     && date_geb d (Date 2025 1 1)
  then from_epoch unix_column us
  else from_epoch unix_column ms.

(** The path [_find_file_path] builds: the folder of the archive family
    below the root, then the name of the archive. *)
Definition archive_path (self : BinanceAdapter) (config : BinanceDataConfig)
    (d : date) (granularity : BinanceDataGranularity) : Path :=
  let file_name :=
    symbol config ++ "-" ++ interval_str (interval config) ++ "-"
      ++ file_date granularity d ++ ".zip" in
  let folder : Path :=
    [ instrument_type_str (instrument_type config);
      granularity_str granularity;
      data_type_str (data_type config);
      symbol config;
      interval_str (interval config) ] in
  (_root self ++ folder ++ [file_name])%list.

(** [BinanceAdapter._find_file_path]: the path, if a file is there. *)
Definition _find_file_path (self : BinanceAdapter) (fs : Store)
    (config : BinanceDataConfig) (d : date)
    (granularity : BinanceDataGranularity) : option Path :=
  let path := archive_path self config d granularity in
  if is_not_null (fs path) then Some path else None.

(** The Int64 columns of a raw row, by name. *)
Definition raw_int (name : string) (r : RawRow) : option Z :=
  if String.eqb name "date_time" then raw_date_time r
  else if String.eqb name "close_date_time" then raw_close_date_time r
  else if String.eqb name "trades_count" then raw_trades_count r
  else None.

(** The value of a [from_epoch] expression on a raw row. *)
Definition eval (e : Expr) (r : RawRow) : option Z :=
  epoch_us (time_unit e) <$> raw_int (column e) r.

(** [BinanceAdapter._load_ohlcv_file] *)
Definition _load_ohlcv_file (self : BinanceAdapter) (fs : Store)
    (config : BinanceDataConfig) (d : date)
    (granularity : BinanceDataGranularity) : option (list BinanceOHLCV) :=
  match _find_file_path self fs config d granularity with
  | None => None
  | Some path =>
      let raw_data := default [] (fs path) in
      Some ((fun r =>
        {| b_date_time := eval (_from_unix config "date_time" d) r;
           b_open := raw_open r;
           b_high := raw_high r;
           b_low := raw_low r;
           b_close := raw_close r;
           b_volume := raw_volume r;
           b_close_date_time := eval (_from_unix config "close_date_time" d) r;
           b_quote_volume := raw_quote_volume r;
           b_trades_count := raw_trades_count r;
           b_taker_buy_base_volume := raw_taker_buy_base_volume r;
           b_taker_buy_quote_volume := raw_taker_buy_quote_volume r |})
        <$> raw_data)
  end.

(** [a / b] on the seconds of two time spans, counted in microseconds:
    the quotient is kept as the pair, and a zero divisor raises. *)
Definition truediv (a b : Z) : result (Z * Z) :=
  if b =? 0 then Raise ZeroDivisionError else Ok (a, b).

(** The state of the loop of [_load_ohlcv]. *)
Record Loading : Type := {
  chunks : list (list BinanceOHLCV);
  trace : list event
}.

(** The [while] loop of [_load_ohlcv]. *)
Fixpoint load_loop (fuel : nat) (self : BinanceAdapter) (fs : Store)
    (config : BinanceDataConfig) (start end_ : datetime)
    (granularity : BinanceDataGranularity) (interval_seconds : Z)
    (chunk_date_time : datetime) (st : Loading) : result Loading :=
  match fuel with
  | O => Raise LoopBound
  | S fuel' =>
      if dt_ltb chunk_date_time end_ then
        let chunk :=
          _load_ohlcv_file self fs config (dt_date chunk_date_time)
            granularity in
        let looked_up :=
          Lookup (archive_path self config (dt_date chunk_date_time)
                    granularity) in
        let chunks' :=
          match chunk with
          | Some c => (chunks st ++ [c])%list
          | None => chunks st
          end in
        next ← next_chunk granularity chunk_date_time;
        let loaded_seconds := timestamp_us next - timestamp_us start in
        '(a, b) ← truediv loaded_seconds interval_seconds;
        load_loop fuel' self fs config start end_ granularity
          interval_seconds next
          {| chunks := chunks';
             trace := (trace st ++ [looked_up; Update a b])%list |}
      else Ok st
  end.

(** A bound on the iterations of the loop: every iteration moves the
    cursor to a later midnight. *)
Definition load_fuel (start end_ : datetime) : nat :=
  S (Z.to_nat ((timestamp_us end_ - timestamp_us start) / day_us + 2)).

(** [BinanceAdapter._load_ohlcv]: the rows of the chunks found, and the
    trace of the loop. *)
Definition _load_ohlcv (self : BinanceAdapter) (fs : Store)
    (config : BinanceDataConfig) (start end_ : datetime)
    (granularity : BinanceDataGranularity)
  : result (list BinanceOHLCV * list event) :=
  let interval_seconds := timestamp_us end_ - timestamp_us start in
  st ← load_loop (load_fuel start end_) self fs config start end_
         granularity interval_seconds start {| chunks := []; trace := [] |};
  if (length (chunks st) =? 0)%nat
  then mret ([], trace st)
  else mret (concat (chunks st), trace st).

(** [frame.select(OHLCV.column_names())] on the rows of a source. *)
Definition select_ohlcv (r : BinanceOHLCV) : OHLCVRow :=
  {| date_time := b_date_time r;
     open := b_open r;
     high := b_high r;
     low := b_low r;
     close := b_close r;
     volume := b_volume r |}.

(** The two joins and the coalescing [with_columns] of [load_ohlcv]. The
    five null columns of the timeline only hold the plain names, so that
    the columns of both sources are suffixed; they are overwritten here. *)
Definition fill (timeline : list Z) (daily_data monthly_data : list OHLCVRow)
  : list Filled :=
  (fun '(t, d, m) =>
     {| f_date_time := t;
        f_open := coalesce (d ≫= open) (m ≫= open);
        f_high := coalesce (d ≫= high) (m ≫= high);
        f_low := coalesce (d ≫= low) (m ≫= low);
        f_close := coalesce (d ≫= close) (m ≫= close);
        f_volume := coalesce (d ≫= volume) (m ≫= volume);
        daily := d;
        monthly := m |})
  <$> join_left fst date_time
        (join_left id date_time timeline daily_data) monthly_data.

(** [filled_data.select(OHLCV.column_names())] *)
Definition select_filled (f : Filled) : OHLCVRow :=
  {| date_time := Some (f_date_time f);
     open := f_open f;
     high := f_high f;
     low := f_low f;
     close := f_close f;
     volume := f_volume f |}.

Context `{!EqDecision V}.

(** The predicate of [filled_data.filter(...)]. *)
Definition ambiguous (f : Filled) : bool :=
  (ne_missing (open_daily f) (open_monthly f)
   || ne_missing (high_daily f) (high_monthly f)
   || ne_missing (low_daily f) (low_monthly f)
   || ne_missing (close_daily f) (close_monthly f)
   || ne_missing (volume_daily f) (volume_monthly f))
  && is_not_null (date_time_daily f)
  && is_not_null (date_time_monthly f).

(** What [load_ohlcv] returns and what it does: the series, the ambiguous
    entries it logs in its warning (with their count), and the trace of
    both loops. *)
Record Loaded : Type := {
  series : list OHLCVRow;
  ambiguous_entries : list Filled;
  ambiguous_entries_count : nat;
  events : list event
}.

(** [BinanceAdapter.load_ohlcv]. The warning it logs when the count is not
    zero is kept in the result; its decorator [with_handler] is declared
    in baikal.common.rich, outside these sources, and is left out. *)
Definition load_ohlcv (self : BinanceAdapter) (fs : Store)
    (config : BinanceDataConfig) (start end_ : datetime) : result Loaded :=
  '(daily_data, daily_trace) ← _load_ohlcv self fs config start end_ DAILY;
  '(monthly_data, monthly_trace) ←
    _load_ohlcv self fs config start end_ MONTHLY;
  let filled_data :=
    fill (datetime_range start end_ (interval config))
      (select_ohlcv <$> daily_data) (select_ohlcv <$> monthly_data) in
  let ambiguous_entries := List.filter ambiguous filled_data in
  mret {| series := select_filled <$> filled_data;
          ambiguous_entries := ambiguous_entries;
          ambiguous_entries_count := length ambiguous_entries;
          events := (daily_trace ++ monthly_trace)%list |}.

End Rows.

Arguments RawRow : clear implicits.
Arguments BinanceOHLCV : clear implicits.
Arguments OHLCVRow : clear implicits.
Arguments Filled : clear implicits.
Arguments Store : clear implicits.
Arguments Loading : clear implicits.
Arguments Loaded : clear implicits.

End Adapter.

(* ===================================================================== *)
(** * What the specification speaks of *)
(* ===================================================================== *)

Module Specification.
Import Calendar Granularity Enums Frames Adapter.

(** The ceiling of [a / b]. *)
Definition ceil_div (a b : Z) : Z := - ((- a) / b).

(** A call returns, and what it returns satisfies [P]. *)
Definition returns {A} (r : result A) (P : A -> Prop) : Prop :=
  match r with
  | Ok a => P a
  | Raise _ => False
  end.

(** One instant is before another. *)
Definition before (a b : datetime) : Prop := timestamp_us a < timestamp_us b.

(** Instants the calendar can hold, the end in a year before the last, so
    that every chunk boundary up to it exists. *)
Definition in_range (start end_ : datetime) : Prop :=
  valid_datetime start /\ valid_datetime end_
  /\ year (dt_date end_) < MAXYEAR.

(** The epoch unit of a chunk: microseconds for Spot from 2025-01-01 on,
    milliseconds otherwise. *)
Definition spec_epoch_unit (instrument : BinanceInstrumentType) (d : date)
  : TimeUnit :=
  if bool_decide (instrument = SPOT
                  /\ toordinal (Date 2025 1 1) <= toordinal d)
  then us else ms.

Section Rows.
Context {V : Type} `{!EqDecision V}.




(** The five core fields of a row. *)
Definition core (r : OHLCVRow V)
  : option V * option V * option V * option V * option V :=
  (open r, high r, low r, close r, volume r).

Definition b_core (r : BinanceOHLCV V)
  : option V * option V * option V * option V * option V :=
  (b_open r, b_high r, b_low r, b_close r, b_volume r).

(** Both sources matched the tick and their rows differ in a core field. *)
Definition spec_ambiguous (f : Filled V) : bool :=
  match daily f, monthly f with
  | Some d, Some m => bool_decide (core d <> core m)
  | _, _ => false
  end.



(** The frame [filled_data] of a call, from the two series loaded. *)
Definition filled_data (config : BinanceDataConfig) (start end_ : datetime)
    (daily_data monthly_data : list (BinanceOHLCV V)) : list (Filled V) :=
  fill (datetime_range start end_ (interval config))
    (select_ohlcv <$> daily_data) (select_ohlcv <$> monthly_data).

(** A call of [load_ohlcv] that loads the two series and returns. *)
Definition loads (self : BinanceAdapter) (fs : Store V)
    (config : BinanceDataConfig) (start end_ : datetime)
    (daily_data monthly_data : list (BinanceOHLCV V)) (out : Loaded V)
  : Prop :=
  exists daily_trace monthly_trace,
    _load_ohlcv self fs config start end_ DAILY
      = Ok (daily_data, daily_trace)
    /\ _load_ohlcv self fs config start end_ MONTHLY
      = Ok (monthly_data, monthly_trace)
    /\ load_ohlcv self fs config start end_ = Ok out
    /\ series out
       = select_filled
         <$> filled_data config start end_ daily_data monthly_data
    /\ ambiguous_entries out
       = List.filter ambiguous
           (filled_data config start end_ daily_data monthly_data)
    /\ ambiguous_entries_count out = length (ambiguous_entries out)
    /\ events out = (daily_trace ++ monthly_trace)%list.

End Rows.

End Specification.

(* ===================================================================== *)
(** * A small archive store *)
(* ===================================================================== *)

(** Two minutes of BTCUSDT one-minute candles on 2020-01-01, with prices in
    whole numbers, in a few stores that differ in what their archives
    hold. *)

Module Fixture.
Import Calendar Granularity Enums Frames Adapter.

Local Open Scope string_scope.
Local Open Scope Z_scope.

Definition adapter : BinanceAdapter := {| _root := ["data"] |}.

Definition btcusdt_1m : BinanceDataConfig :=
  {| data_type := OHLCV;
     instrument_type := SPOT;
     interval := ONE_MINUTE;
     symbol := "BTCUSDT" |}.

(** 2020-01-01T00:00Z, 00:01Z and 00:02Z. *)
Definition midnight_utc : datetime := Datetime (Date 2020 1 1) 0 0 0 0 0.
Definition one_past : datetime := Datetime (Date 2020 1 1) 0 1 0 0 0.
Definition two_past : datetime := Datetime (Date 2020 1 1) 0 2 0 0 0.

(** The last day Python can hold. *)
Definition last_day : datetime := Datetime (Date 9999 12 31) 0 0 0 0 0.

(** A raw row at [t] milliseconds with the given open and high, the other
    core fields being 1. *)
Definition raw (t o h : Z) : RawRow Z :=
  {| raw_date_time := Some t;
     raw_open := Some o;
     raw_high := Some h;
     raw_low := Some 1;
     raw_close := Some 1;
     raw_volume := Some 1;
     raw_close_date_time := Some (t + 59999);
     raw_quote_volume := Some 1;
     raw_trades_count := Some 1;
     raw_taker_buy_base_volume := Some 1;
     raw_taker_buy_quote_volume := Some 1;
     raw_ignore := Some 0 |}.

Definition daily_archive : Path :=
  ["data"; "spot"; "daily"; "klines"; "BTCUSDT"; "1m";
   "BTCUSDT-1m-2020-01-01.zip"]%list.

Definition monthly_archive : Path :=
  ["data"; "spot"; "monthly"; "klines"; "BTCUSDT"; "1m";
   "BTCUSDT-1m-2020-01.zip"]%list.

(** The store with the given Daily and Monthly archives and no other. *)
Definition store (d m : option (list (RawRow Z))) : Store Z :=
  fun p =>
    if bool_decide (p = daily_archive) then d
    else if bool_decide (p = monthly_archive) then m
    else None.

(** No archive at all. *)
Definition no_archives : Store Z := store None None.

(** The first minute in the Daily archive, both minutes in the Monthly
    one, all in agreement. *)
Definition agreeing : Store Z :=
  store (Some [raw 1577836800000 1 1])
        (Some [raw 1577836800000 1 1; raw 1577836860000 1 1]).

(** A Daily archive that holds the first minute twice. *)
Definition duplicated : Store Z :=
  store (Some [raw 1577836800000 1 1; raw 1577836800000 2 2]) None.

(** The first minute in both archives, which differ in open and in high. *)
Definition conflicting : Store Z :=
  store (Some [raw 1577836800000 1 1]) (Some [raw 1577836800000 2 2]).

End Fixture.

(* ===================================================================== *)
(** * What a call looks up and reports *)
(* ===================================================================== *)

Module Observing.
Import Calendar Granularity Enums Frames Adapter Specification.

(** The paths a trace looks up, in order. *)
Definition lookups (tr : list event) : list Path :=
  omap (fun e => match e with
                 | Lookup p => Some p
                 | Update _ _ => None
                 end) tr.

(** The progress a trace reports, in order: the seconds loaded and the
    seconds of the request. *)
Definition updates (tr : list event) : list (Z * Z) :=
  omap (fun e => match e with
                 | Lookup _ => None
                 | Update a b => Some (a, b)
                 end) tr.

(** The dates at which a chunk of a granularity starts: any day for Daily,
    the first day of a month for Monthly. *)
Definition boundary (g : BinanceDataGranularity) (d : date) : Prop :=
  match g with
  | DAILY => True
  | MONTHLY => day d = 1
  end.

(** Two dates name the same chunk: the same day for Daily, the same month
    for Monthly. *)
Definition same_chunk (g : BinanceDataGranularity) (a b : date) : Prop :=
  match g with
  | DAILY => a = b
  | MONTHLY => year a = year b /\ month a = month b
  end.

(** The number of a chunk among the chunks of its granularity: the
    ordinal of the day for Daily, the months since the year 0 for
    Monthly. *)
Definition chunk_index (g : BinanceDataGranularity) (d : date) : Z :=
  match g with
  | DAILY => toordinal d
  | MONTHLY => 12 * year d + month d
  end.

(** The cursors of the loop of [_load_ohlcv]: from a cursor, the cursors
    at which the body runs, in order, and the cursor at which the loop
    ends. *)
Inductive run (g : BinanceDataGranularity) (stop : datetime)
  : datetime -> list datetime -> datetime -> Prop :=
| run_done c : ~ before c stop -> run g stop c [] c
| run_step c c' cs cf :
    before c stop -> next_chunk g c = Ok c' -> run g stop c' cs cf ->
    run g stop c (c :: cs) cf.

(** What the body leaves in the trace at each of these cursors: the path
    it looks up, and the progress up to the next cursor. *)
Fixpoint steps (self : BinanceAdapter) (config : BinanceDataConfig)
    (g : BinanceDataGranularity) (start stop : datetime)
    (cs : list datetime) (cf : datetime) : list event :=
  match cs with
  | [] => []
  | c :: cs' =>
      let c' := default cf (head cs') in
      Lookup (archive_path self config (dt_date c) g)
      :: Update (timestamp_us c' - timestamp_us start)
                (timestamp_us stop - timestamp_us start)
      :: steps self config g start stop cs' cf
  end.

(** Reading a decimal number back from its digits. *)
Definition digit_value (c : ascii) : Z := Z.of_nat (nat_of_ascii c) - 48.

Fixpoint int_of_digits (acc : Z) (s : string) : Z :=
  match s with
  | EmptyString => acc
  | String c s' => int_of_digits (acc * 10 + digit_value c) s'
  end.

Section Rows.
Context {V : Type}.

(** A store without any archive. *)
Definition no_archive (fs : Store V) : Prop := forall p, fs p = None.

(** Two stores with the same archives of a configuration. *)
Definition same_archives (self : BinanceAdapter) (config : BinanceDataConfig)
    (fs1 fs2 : Store V) : Prop :=
  forall d g,
    fs1 (archive_path self config d g) = fs2 (archive_path self config d g).

(** The number of rows a series has at a tick. *)
Definition rows_at (rows : list (BinanceOHLCV V)) (t : Z) : nat :=
  length (filter (fun r => b_date_time r = Some t) rows).

(** A row of the output without any value. *)
Definition all_null (r : OHLCVRow V) : Prop :=
  open r = None /\ high r = None /\ low r = None /\ close r = None
  /\ volume r = None.

End Rows.

End Observing.

(* ===================================================================== *)
(** * A store with an archive of another symbol *)
(* ===================================================================== *)

Module MoreFixture.
Import Calendar Granularity Enums Frames Adapter Fixture.

Local Open Scope string_scope.
Local Open Scope Z_scope.

Definition other_archive : Path :=
  ["data"; "spot"; "daily"; "klines"; "ETHUSDT"; "1m";
   "ETHUSDT-1m-2020-01-01.zip"]%list.

(** The store [agreeing], and beside its archives one of ETHUSDT. *)
Definition with_other_symbol : Store Z :=
  fun p =>
    if bool_decide (p = other_archive) then Some [raw 1577836800000 7 7]
    else agreeing p.






End MoreFixture.

(* ===================================================================== *)
(** * Facts about the calendar *)
(* ===================================================================== *)

Module CalendarFacts.
Import Calendar.

Ltac unbool :=
  repeat match goal with
  | H : _ && _ = true |- _ => apply andb_prop in H; destruct H
  | H : (_ <=? _) = true |- _ => apply Z.leb_le in H
  | H : (_ <? _) = true |- _ => apply Z.ltb_lt in H
  | H : (_ <=? _) = false |- _ => apply Z.leb_gt in H
  | H : (_ <? _) = false |- _ => apply Z.ltb_ge in H
  | H : (_ >? _) = true |- _ => rewrite Z.gtb_ltb in H
  | H : (_ >? _) = false |- _ => rewrite Z.gtb_ltb in H
  | H : (_ =? _) = true |- _ => apply Z.eqb_eq in H
  | H : (_ =? _) = false |- _ => apply Z.eqb_neq in H
  end.

Lemma valid_date_inv d :
  valid_date d ->
  1 <= year d <= 9999 /\ 1 <= month d <= 12
  /\ 1 <= day d <= _days_in_month (year d) (month d).
Proof.
  unfold valid_date, valid_dateb, MINYEAR, MAXYEAR. intros H. unbool. lia.
Qed.

Lemma valid_date_intro d :
  1 <= year d <= 9999 -> 1 <= month d <= 12 ->
  1 <= day d <= _days_in_month (year d) (month d) ->
  valid_date d.
Proof.
  unfold valid_date, valid_dateb, MINYEAR, MAXYEAR. intros.
  repeat (apply andb_true_intro; split); lia.
Qed.

(** The months, one by one. *)
Lemma month_cases m :
  1 <= m <= 12 ->
  m = 1 \/ m = 2 \/ m = 3 \/ m = 4 \/ m = 5 \/ m = 6
  \/ m = 7 \/ m = 8 \/ m = 9 \/ m = 10 \/ m = 11 \/ m = 12.
Proof. lia. Qed.

Lemma days_in_month_bounds y m :
  1 <= m <= 12 -> 28 <= _days_in_month y m <= 31.
Proof.
  intros Hm. unfold _days_in_month.
  destruct (month_cases m Hm) as [->|[->|[->|[->|[->|[->|[->|[->|[->|[->|[->| ->]]]]]]]]]]];
    destruct (_is_leap y); simpl; lia.
Qed.

(** A year is 365 days long, or 366 when it is a leap year. *)
Lemma days_before_next_year y :
  _days_before_year (y + 1)
  = _days_before_year y + 365 + (if _is_leap y then 1 else 0).
Proof.
  unfold _days_before_year, _is_leap.
  replace (y + 1 - 1) with y by lia.
  destruct (y mod 4 =? 0) eqn:H4; destruct (y mod 100 =? 0) eqn:H100;
    destruct (y mod 400 =? 0) eqn:H400; simpl; unbool; Z.to_euclidean_division_equations; lia.
Qed.

Lemma days_before_year_mono y1 y2 :
  y1 <= y2 -> _days_before_year y1 <= _days_before_year y2.
Proof. unfold _days_before_year. Z.to_euclidean_division_equations. lia. Qed.

(** The first day of a month comes a full month after the first day of the
    month before. *)
Lemma days_before_next_month y m :
  1 <= m < 12 ->
  _days_before_month y (m + 1) = _days_before_month y m + _days_in_month y m.
Proof.
  intros Hm. unfold _days_before_month, _days_in_month.
  assert (Hc : m = 1 \/ m = 2 \/ m = 3 \/ m = 4 \/ m = 5 \/ m = 6
            \/ m = 7 \/ m = 8 \/ m = 9 \/ m = 10 \/ m = 11) by lia.
  destruct Hc as [->|[->|[->|[->|[->|[->|[->|[->|[->|[->| ->]]]]]]]]]];
    destruct (_is_leap y); reflexivity.
Qed.

Lemma days_before_december y :
  _days_before_month y 12 + _days_in_month y 12
  = 365 + (if _is_leap y then 1 else 0).
Proof.
  unfold _days_before_month, _days_in_month. destruct (_is_leap y); reflexivity.
Qed.

Ltac each_month H :=
  destruct (month_cases _ H)
    as [->|[->|[->|[->|[->|[->|[->|[->|[->|[->|[->| ->]]]]]]]]]]].

(** Within a year the months follow each other. *)
Lemma days_before_month_mono y m1 m2 :
  1 <= m1 <= 12 -> 1 <= m2 <= 12 -> m1 < m2 ->
  _days_before_month y m1 + _days_in_month y m1 <= _days_before_month y m2.
Proof.
  intros H1 H2 Hlt. unfold _days_before_month, _days_in_month.
  each_month H1; each_month H2; try lia; destruct (_is_leap y); simpl; lia.
Qed.

Lemma days_before_month_bounds y m :
  1 <= m <= 12 ->
  0 <= _days_before_month y m
  /\ _days_before_month y m + _days_in_month y m
     <= 365 + (if _is_leap y then 1 else 0).
Proof.
  intros H. unfold _days_before_month, _days_in_month.
  each_month H; destruct (_is_leap y); simpl; lia.
Qed.

Lemma valid_in_calendar d : valid_date d -> in_calendar d.
Proof. intros H. apply valid_date_inv in H. unfold in_calendar. tauto. Qed.

(** The ordinal of a date lies within its year. *)
Lemma toordinal_in_year d :
  in_calendar d ->
  _days_before_year (year d) < toordinal d <= _days_before_year (year d + 1).
Proof.
  intros (Hm & Hday).
  unfold toordinal. rewrite days_before_next_year.
  pose proof (days_before_month_bounds (year d) (month d) Hm). lia.
Qed.

(** The order of dates is the order of their ordinals. *)
Lemma toordinal_lt a b :
  in_calendar a -> in_calendar b ->
  date_ltb a b = true -> toordinal a < toordinal b.
Proof.
  intros Ha Hb Hlt.
  pose proof (toordinal_in_year a Ha) as Hia.
  pose proof (toordinal_in_year b Hb) as Hib.
  destruct Ha as (Hma & Hda), Hb as (Hmb & Hdb).
  unfold date_ltb in Hlt.
  apply orb_prop in Hlt as [Hy | Hlt].
  - unbool.
    pose proof (days_before_year_mono (year a + 1) (year b)). lia.
  - apply andb_prop in Hlt as [Hy Hlt]. unbool.
    unfold toordinal. rewrite Hy.
    apply orb_prop in Hlt as [Hm | Hlt].
    + unbool.
      pose proof (days_before_month_mono (year b) (month a) (month b)).
      rewrite Hy in Hda. lia.
    + unbool. rewrite H. lia.
Qed.

Lemma date_ltb_total a b :
  date_ltb a b = false -> a = b \/ date_ltb b a = true.
Proof.
  destruct a as [ya ma da], b as [yb mb db]. unfold date_ltb. simpl.
  destruct (Z.ltb_spec ya yb), (Z.eqb_spec ya yb), (Z.ltb_spec ma mb),
    (Z.eqb_spec ma mb), (Z.ltb_spec da db), (Z.ltb_spec yb ya),
    (Z.eqb_spec yb ya), (Z.ltb_spec mb ma), (Z.eqb_spec mb ma),
    (Z.ltb_spec db da); simpl; intros; try discriminate; try lia;
    try (now right); left; f_equal; lia.
Qed.

Lemma toordinal_lt_iff a b :
  in_calendar a -> in_calendar b ->
  date_ltb a b = true <-> toordinal a < toordinal b.
Proof.
  intros Ha Hb. split; [now apply toordinal_lt|].
  intros Hlt. destruct (date_ltb a b) eqn:E; [reflexivity|].
  apply date_ltb_total in E as [->|E]; [lia|].
  apply toordinal_lt in E; auto. lia.
Qed.

(** The day after: one more in the ordinal, as [date + timedelta(days=1)]
    computes it. *)
Lemma add_days1_ok d d' :
  valid_date d -> add_relativedelta_days1 d = Ok d' ->
  valid_date d' /\ toordinal d' = toordinal d + 1.
Proof.
  intros Hd. apply valid_date_inv in Hd as (Hy & Hm & Hday).
  unfold add_relativedelta_days1, MAXYEAR.
  destruct (day d <? _) eqn:E1; [|destruct (month d <? 12) eqn:E2;
    [|destruct (year d <? 9999) eqn:E3]]; intros [= <-]; unbool.
  - split; [apply valid_date_intro; simpl; lia|]. unfold toordinal. simpl. lia.
  - pose proof (days_in_month_bounds (year d) (month d + 1)).
    split; [apply valid_date_intro; simpl; lia|].
    unfold toordinal. simpl. rewrite days_before_next_month by lia. lia.
  - assert (Hm12 : month d = 12) by lia.
    split; [apply valid_date_intro; simpl; unfold _days_in_month; simpl; lia|].
    unfold toordinal. simpl. rewrite days_before_next_year.
    pose proof (days_before_december (year d)). rewrite Hm12 in *.
    unfold _days_before_month at 1. simpl. lia.
Qed.

(** It exists for every date but the last. *)
Lemma add_days1_defined d :
  valid_date d -> d <> Date 9999 12 31 ->
  exists d', add_relativedelta_days1 d = Ok d'.
Proof.
  intros Hd Hne. apply valid_date_inv in Hd as (Hy & Hm & Hday).
  unfold add_relativedelta_days1, MAXYEAR.
  destruct (day d <? _) eqn:E1; [eauto|].
  destruct (month d <? 12) eqn:E2; [eauto|].
  destruct (year d <? 9999) eqn:E3; [eauto|]. unbool.
  exfalso. apply Hne. destruct d as [y m dd]. simpl in *.
  assert (m = 12) by lia. assert (y = 9999) by lia. subst.
  unfold _days_in_month in *. simpl in *. f_equal. lia.
Qed.

(** The month after: its first day comes a full month after the first day
    of the month of [d]. *)
Lemma add_months1_ok d d' :
  valid_date d -> add_relativedelta_months1 d = Ok d' ->
  valid_date d' /\ valid_date (Date (year d') (month d') 1)
  /\ toordinal (Date (year d') (month d') 1)
     = toordinal (Date (year d) (month d) 1)
       + _days_in_month (year d) (month d).
Proof.
  intros Hd. apply valid_date_inv in Hd as (Hy & Hm & Hday).
  unfold add_relativedelta_months1, MAXYEAR.
  destruct (month d + 1 >? 12) eqn:E1.
  - destruct (year d + 1 >? 9999) eqn:E2; intros [= <-]; unbool. simpl.
    assert (Hm12 : month d = 12) by lia. rewrite Hm12.
    replace (12 + 1 - 12) with 1 by lia.
    pose proof (days_in_month_bounds (year d + 1) 1).
    split; [apply valid_date_intro; simpl; lia|].
    split; [apply valid_date_intro; simpl; lia|].
    unfold toordinal. simpl. rewrite days_before_next_year.
    pose proof (days_before_december (year d)).
    unfold _days_before_month at 1. simpl. lia.
  - destruct (year d >? 9999) eqn:E2; intros [= <-]; unbool. simpl.
    pose proof (days_in_month_bounds (year d) (month d + 1)).
    split; [apply valid_date_intro; simpl; lia|].
    split; [apply valid_date_intro; simpl; lia|].
    unfold toordinal. simpl. rewrite days_before_next_month by lia. lia.
Qed.

(** It exists for every date before December 9999. *)
Lemma add_months1_defined d :
  valid_date d -> ~ (year d = 9999 /\ month d = 12) ->
  exists d', add_relativedelta_months1 d = Ok d'.
Proof.
  intros Hd Hne. apply valid_date_inv in Hd as (Hy & Hm & Hday).
  unfold add_relativedelta_months1, MAXYEAR.
  destruct (month d + 1 >? 12) eqn:E1.
  - destruct (year d + 1 >? 9999) eqn:E2; [|eauto]. unbool. lia.
  - destruct (year d >? 9999) eqn:E2; [|eauto]. unbool. lia.
Qed.

Lemma valid_datetime_inv t :
  valid_datetime t ->
  valid_date (dt_date t) /\ 0 <= time_us t < day_us
  /\ - day_us < tzinfo t < day_us.
Proof.
  unfold valid_datetime, valid_datetimeb, time_us, day_us. intros H. unbool.
  split; [assumption|]. lia.
Qed.

Lemma valid_midnight d tz :
  valid_date d -> - day_us < tz < day_us -> valid_datetime (midnight d tz).
Proof.
  intros Hd Htz. unfold valid_datetime, valid_datetimeb, midnight. simpl.
  rewrite Hd. simpl. unfold day_us in *.
  repeat (apply andb_true_intro; split); lia.
Qed.

End CalendarFacts.

(* ===================================================================== *)
(** * Facts about the granularities *)
(* ===================================================================== *)

Module GranularityFacts.
Import Calendar Granularity Specification CalendarFacts.

(** What one step of either granularity does to a valid instant. *)
Lemma next_chunk_step g t t' :
  valid_datetime t -> next_chunk g t = Ok t' ->
  valid_datetime t' /\ tzinfo t' = tzinfo t /\ time_us t' = 0
  /\ toordinal (dt_date t) < toordinal (dt_date t')
  /\ timestamp_us t - time_us t + day_us <= timestamp_us t'.
Proof.
  intros Ht Hn. apply valid_datetime_inv in Ht as (Hd & Htime & Htz).
  destruct g; simpl in Hn.
  - destruct (add_relativedelta_days1 (dt_date t)) as [d'|e] eqn:E;
      [|discriminate].
    injection Hn as <-.
    apply add_days1_ok in E as [Hv Ho]; [|assumption].
    replace (Date (year d') (month d') (day d')) with d' by now destruct d'.
    split; [now apply valid_midnight|].
    unfold timestamp_us, time_us, midnight; simpl. unfold day_us in *.
    repeat split; lia.
  - destruct (add_relativedelta_months1 (dt_date t)) as [d'|e] eqn:E;
      [|discriminate].
    injection Hn as <-.
    apply add_months1_ok in E as (Hv & Hv1 & Ho); [|assumption].
    split; [now apply valid_midnight|].
    assert (Hlt : toordinal (dt_date t)
                  < toordinal (Date (year d') (month d') 1)).
    { rewrite Ho. apply valid_date_inv in Hd. unfold toordinal; simpl.
      unfold toordinal. lia. }
    unfold timestamp_us, time_us, midnight; simpl. unfold day_us in *.
    repeat split; lia.
Qed.

Lemma next_chunk_later g t t' :
  valid_datetime t -> next_chunk g t = Ok t' -> before t t'.
Proof.
  intros Ht Hn. pose proof (valid_datetime_inv t Ht) as (_ & Htime & _).
  apply next_chunk_step in Hn as (_ & _ & _ & _ & H); [|assumption].
  unfold before. lia.
Qed.

Lemma boundaries_sorted g n : forall t ts,
  valid_datetime t -> boundaries g n t = Ok ts ->
  Sorted before (t :: ts).
Proof.
  induction n as [|n IH]; intros t ts Ht Hb; simpl in Hb.
  - injection Hb as <-. repeat constructor.
  - destruct (next_chunk g t) as [t'|e] eqn:E; [|discriminate]. simpl in Hb.
    destruct (boundaries g n t') as [ts'|e] eqn:E'; [|discriminate].
    injection Hb as <-.
    pose proof (next_chunk_step g t t' Ht E) as (Hv & _).
    constructor; [now apply IH|].
    constructor. now apply (next_chunk_later g).
Qed.

#[local] Instance before_trans : Transitive before.
Proof. intros a b c. unfold before. lia. Qed.

(** C9, as amended. For every instant but those of the last day that
    Python can hold (Daily) or of its last month (Monthly), [next_chunk]
    returns midnight, in the time zone of the instant, of the day after
    the day of the instant (Daily), or of the first day of the month
    after its month (Monthly), and that is later than the instant. So the
    boundaries reached by iterating [next_chunk] from an instant come in
    strictly increasing order, each one once. *)
Theorem next_chunk_boundary g t :
  valid_datetime t ->
  match g with
  | DAILY => dt_date t <> Date 9999 12 31
  | MONTHLY => ~ (year (dt_date t) = 9999 /\ month (dt_date t) = 12)
  end ->
  exists t',
    next_chunk g t = Ok t'
    /\ valid_datetime t'
    /\ hour t' = 0 /\ minute t' = 0 /\ second t' = 0 /\ microsecond t' = 0
    /\ tzinfo t' = tzinfo t
    /\ match g with
       | DAILY => toordinal (dt_date t') = toordinal (dt_date t) + 1
       | MONTHLY =>
           day (dt_date t') = 1
           /\ toordinal (dt_date t')
              = toordinal (Date (year (dt_date t)) (month (dt_date t)) 1)
                + _days_in_month (year (dt_date t)) (month (dt_date t))
       end
    /\ before t t'
    /\ forall n ts,
         boundaries g n t = Ok ts ->
         StronglySorted before (t :: ts) /\ NoDup (t :: ts).
Proof.
  intros Ht Hlast.
  pose proof (valid_datetime_inv t Ht) as (Hd & _ & _).
  assert (Hn : exists t', next_chunk g t = Ok t').
  { destruct g; simpl.
    - destruct (add_days1_defined _ Hd Hlast) as [d' ->]. simpl; eauto.
    - destruct (add_months1_defined _ Hd Hlast) as [d' ->]. simpl; eauto. }
  destruct Hn as [t' Hn]. exists t'.
  pose proof (next_chunk_step g t t' Ht Hn) as (Hv & Htz & _ & _ & _).
  pose proof (next_chunk_later g t t' Ht Hn) as Hlater.
  split; [exact Hn|]. split; [exact Hv|].
  assert (Hshape : hour t' = 0 /\ minute t' = 0 /\ second t' = 0
                   /\ microsecond t' = 0).
  { destruct g; simpl in Hn;
      [destruct (add_relativedelta_days1 (dt_date t))
      |destruct (add_relativedelta_months1 (dt_date t))];
      simpl in Hn; try discriminate; injection Hn as <-; simpl; tauto. }
  destruct Hshape as (H1 & H2 & H3 & H4).
  repeat (split; [assumption|]).
  split.
  - destruct g; simpl in Hn.
    + destruct (add_relativedelta_days1 (dt_date t)) as [d'|] eqn:E;
        simpl in Hn; [|discriminate].
      injection Hn as <-. simpl.
      apply add_days1_ok in E as [_ E]; [|assumption].
      now destruct d'.
    + destruct (add_relativedelta_months1 (dt_date t)) as [d'|] eqn:E;
        simpl in Hn; [|discriminate].
      injection Hn as <-. simpl.
      apply add_months1_ok in E as (_ & _ & E); [|assumption].
      split; [reflexivity|exact E].
  - split; [exact Hlater|].
    intros n ts Hb.
    assert (Hs : StronglySorted before (t :: ts)).
    { apply Sorted_StronglySorted; [exact before_trans|].
      now apply (boundaries_sorted g n). }
    split; [exact Hs|].
    clear -Hs. induction Hs as [|x l Hs IH Hx]; constructor; [|assumption].
    intros Hin. rewrite Forall_forall in Hx. specialize (Hx x Hin).
    unfold before in Hx. lia.
Qed.

(** ** The file-date key *)

Lemma format_year_four_digits y :
  1000 <= y <= 9999 -> format_0d 2 y = format_0d 4 y.
Proof.
  intros Hy.
  assert (Hall : forallb (fun y => String.eqb (format_0d 2 y) (format_0d 4 y))
                   (seqZ 1000 9000) = true) by (vm_compute; reflexivity).
  rewrite forallb_forall in Hall.
  apply String.eqb_eq, Hall, list_elem_of_In, elem_of_seqZ. lia.
Qed.

(** From the year 1000 on, the key is the one the specification
    describes. *)
Lemma file_date_four_digit_years g d :
  valid_date d -> 1000 <= year d ->
  file_date g d = spec_file_date_key g d.
Proof.
  intros Hd Hy. apply valid_date_inv in Hd as (Hyear & _ & _).
  unfold file_date, spec_file_date_key.
  rewrite format_year_four_digits by lia. reflexivity.
Qed.

(** C8. The year of the key is padded to two digits, not to four: for the
    date 0999-01-01 the Daily key is 999-01-01 and the Monthly key 999-01,
    where a four-digit year gives 0999-01-01 and 0999-01. *)
Theorem file_date_short_year :
  valid_date (Date 999 1 1)
  /\ file_date DAILY (Date 999 1 1) = "999-01-01"%string
  /\ file_date MONTHLY (Date 999 1 1) = "999-01"%string
  /\ spec_file_date_key DAILY (Date 999 1 1) = "0999-01-01"%string
  /\ spec_file_date_key MONTHLY (Date 999 1 1) = "0999-01"%string.
Proof. repeat split. Qed.

End GranularityFacts.

(* ===================================================================== *)
(** * Facts about the frames *)
(* ===================================================================== *)

Module FramesFacts.
Import Calendar Enums Frames Specification CalendarFacts.

(** ** The ticks of a range *)

Lemma add_month_index d k :
  1 <= month d <= 12 -> 0 <= k ->
  12 * year (add_month d k) + month (add_month d k)
    = 12 * year d + month d + k
  /\ 1 <= month (add_month d k) <= 12.
Proof.
  intros Hm Hk. unfold add_month.
  destruct (month d + k mod 12 >? 12) eqn:E; simpl; unbool;
    Z.to_euclidean_division_equations; lia.
Qed.

Lemma add_month_in_calendar d k :
  in_calendar d -> 0 <= k -> in_calendar (add_month d k).
Proof.
  intros [Hm Hd] Hk. destruct (add_month_index d k Hm Hk) as [_ Hm'].
  split; [assumption|].
  pose proof (days_in_month_bounds (year (add_month d k))
                (month (add_month d k)) Hm') as Hb.
  revert Hm' Hb. unfold add_month.
  destruct (month d + k mod 12 >? 12); simpl; lia.
Qed.

Lemma add_month_0 d : in_calendar d -> add_month d 0 = d.
Proof.
  intros [Hm Hd]. unfold add_month. simpl.
  rewrite !Z.add_0_r.
  destruct (month d >? 12) eqn:E; unbool; [lia|].
  destruct d as [y m dd]; simpl in *. f_equal. lia.
Qed.

Lemma add_month_later d k :
  in_calendar d -> 0 <= k ->
  toordinal (add_month d k) < toordinal (add_month d (k + 1)).
Proof.
  intros Hd Hk.
  pose proof (add_month_in_calendar d k Hd Hk) as H1.
  pose proof (add_month_in_calendar d (k + 1) Hd ltac:(lia)) as H2.
  apply toordinal_lt; try assumption.
  destruct Hd as [Hm _].
  destruct (add_month_index d k Hm Hk) as [Ha Ha'].
  destruct (add_month_index d (k + 1) Hm ltac:(lia)) as [Hb Hb'].
  unfold date_ltb.
  destruct (Z.ltb_spec (year (add_month d k)) (year (add_month d (k + 1))));
    [reflexivity|].
  destruct (Z.eqb_spec (year (add_month d k)) (year (add_month d (k + 1))));
    [|lia].
  destruct (Z.ltb_spec (month (add_month d k)) (month (add_month d (k + 1))));
    [reflexivity|lia].
Qed.

(** The intervals of the enumeration: either a fixed number of
    microseconds, a second or more, or one month. *)
Lemma parse_interval_cases i :
  (months (parse_interval i) = 0 /\ 1000000 <= micros (parse_interval i))
  \/ (months (parse_interval i) = 1 /\ micros (parse_interval i) = 0).
Proof. destruct i; simpl; lia. Qed.

Lemma offset_by_fixed every k start :
  months every = 0 ->
  offset_by every k start = timestamp_us start + k * micros every.
Proof. intros H. unfold offset_by. rewrite H. reflexivity. Qed.

Lemma offset_by_0 i start :
  in_calendar (dt_date start) ->
  offset_by (parse_interval i) 0 start = timestamp_us start.
Proof.
  intros Hd. unfold offset_by.
  destruct (months (parse_interval i) >? 0); [|lia].
  rewrite Z.mul_0_l, add_month_0 by assumption.
  destruct start; simpl. lia.
Qed.

(** Every tick comes a second or more after the one before. *)
Lemma offset_by_step i k start :
  in_calendar (dt_date start) -> 0 <= k ->
  offset_by (parse_interval i) k start + 1000000
  <= offset_by (parse_interval i) (k + 1) start.
Proof.
  intros Hd Hk.
  destruct (parse_interval_cases i) as [[Hm Hu]|[Hm Hu]].
  - rewrite !offset_by_fixed by assumption. lia.
  - unfold offset_by. rewrite Hm, Hu. simpl.
    unfold timestamp_us, time_us; simpl.
    pose proof (add_month_later (dt_date start) k Hd Hk).
    rewrite !Z.mul_1_r. unfold day_us. lia.
Qed.

Lemma offset_by_later i k start :
  in_calendar (dt_date start) -> 0 <= k ->
  offset_by (parse_interval i) k start
  < offset_by (parse_interval i) (k + 1) start.
Proof. intros Hd Hk. pose proof (offset_by_step i k start Hd Hk). lia. Qed.

Lemma offset_by_mono i start k1 k2 :
  in_calendar (dt_date start) -> 0 <= k1 -> k1 <= k2 ->
  offset_by (parse_interval i) k1 start
  <= offset_by (parse_interval i) k2 start.
Proof.
  intros Hd Hk1 Hle.
  replace k2 with (k1 + Z.of_nat (Z.to_nat (k2 - k1))) by lia.
  induction (Z.to_nat (k2 - k1)) as [|n IH].
  - simpl. rewrite Z.add_0_r. lia.
  - pose proof (offset_by_later i (k1 + Z.of_nat n) start Hd ltac:(lia)).
    replace (k1 + Z.of_nat (S n)) with (k1 + Z.of_nat n + 1) by lia. lia.
Qed.

(** The loop yields increasing ticks, none before tick [k]. *)
Lemma range_loop_sorted i start stop fuel : forall k,
  in_calendar (dt_date start) -> 0 <= k ->
  StronglySorted Z.lt (range_loop fuel (parse_interval i) start stop k)
  /\ Forall (Z.le (offset_by (parse_interval i) k start))
       (range_loop fuel (parse_interval i) start stop k).
Proof.
  induction fuel as [|fuel IH]; intros k Hd Hk; simpl.
  - split; constructor.
  - destruct (_ <? stop); [|split; constructor].
    destruct (IH (k + 1) Hd ltac:(lia)) as [Hs Hf].
    pose proof (offset_by_later i k start Hd Hk) as Hlt.
    split.
    + constructor; [assumption|].
      eapply Forall_impl; [exact Hf|]. simpl. intros; lia.
    + constructor; [lia|].
      eapply Forall_impl; [exact Hf|]. simpl. intros; lia.
Qed.

Lemma range_loop_before_stop every start stop fuel : forall k,
  Forall (fun t => t < stop) (range_loop fuel every start stop k).
Proof.
  induction fuel as [|fuel IH]; intros k; simpl; [constructor|].
  destruct (Z.ltb_spec (offset_by every k start) stop); constructor; auto.
Qed.

(** The loop misses no tick before [stop]: its bound is not reached. *)
Lemma range_loop_complete i start stop fuel : forall k j,
  in_calendar (dt_date start) -> 0 <= k <= j ->
  offset_by (parse_interval i) j start < stop ->
  stop - offset_by (parse_interval i) k start
    <= (Z.of_nat fuel - 1) * 1000000 ->
  offset_by (parse_interval i) j start
    ∈ range_loop fuel (parse_interval i) start stop k.
Proof.
  induction fuel as [|fuel IH]; intros k j Hd Hkj Hj Hf.
  - pose proof (offset_by_mono i start k j Hd ltac:(lia) ltac:(lia)). lia.
  - simpl.
    pose proof (offset_by_mono i start k j Hd ltac:(lia) ltac:(lia)) as Hm.
    destruct (Z.ltb_spec (offset_by (parse_interval i) k start) stop); [|lia].
    destruct (Z.eq_dec j k) as [->|Hne]; [apply list_elem_of_here|].
    apply list_elem_of_further. apply IH; try assumption; try lia.
    pose proof (offset_by_step i k start Hd ltac:(lia)). lia.
Qed.


(** The timeline is strictly ascending, within [start, end). *)
Lemma datetime_range_sorted start stop i :
  in_calendar (dt_date start) ->
  StronglySorted Z.lt (datetime_range start stop i).
Proof.
  intros Hd. unfold datetime_range.
  destruct (_ >? _); [constructor|].
  now apply range_loop_sorted.
Qed.

Lemma datetime_range_bounds start stop i t :
  in_calendar (dt_date start) ->
  t ∈ datetime_range start stop i ->
  timestamp_us start <= t < timestamp_us stop.
Proof.
  intros Hd. unfold datetime_range.
  destruct (_ >? _); [intros H; inversion H|].
  intros Hin. split.
  - destruct (range_loop_sorted i start (timestamp_us stop)
      (range_fuel (timestamp_us stop - timestamp_us start)) 0 Hd ltac:(lia))
      as [_ Hf].
    rewrite Forall_forall in Hf. specialize (Hf t Hin).
    rewrite offset_by_0 in Hf by assumption. exact Hf.
  - pose proof (range_loop_before_stop (parse_interval i) start
      (timestamp_us stop)
      (range_fuel (timestamp_us stop - timestamp_us start)) 0) as Hf.
    rewrite Forall_forall in Hf. now apply Hf.
Qed.

Lemma datetime_range_complete start stop i k :
  in_calendar (dt_date start) -> 0 <= k ->
  offset_by (parse_interval i) k start < timestamp_us stop ->
  offset_by (parse_interval i) k start ∈ datetime_range start stop i.
Proof.
  intros Hd Hk Hlt. unfold datetime_range.
  pose proof (offset_by_mono i start 0 k Hd ltac:(lia) Hk) as Hm.
  rewrite offset_by_0 in Hm by assumption.
  destruct (Z.gtb_spec (timestamp_us start) (timestamp_us stop)); [lia|].
  apply range_loop_complete; try assumption; try lia.
  rewrite offset_by_0 by assumption. unfold range_fuel.
  pose proof (Z.div_mod (timestamp_us stop - timestamp_us start) 1000000
                ltac:(lia)).
  pose proof (Z.mod_pos_bound (timestamp_us stop - timestamp_us start)
                1000000 ltac:(lia)).
  assert (0 <= (timestamp_us stop - timestamp_us start) / 1000000)
    by (apply Z.div_pos; lia).
  lia.
Qed.



(** With a fixed interval [e], the loop started at tick [k] yields the
    ticks up to the [n]-th, where [n] is the number of intervals needed to
    cover the span. *)
Lemma ceil_div_spec a b k :
  0 < b -> (k * b < a <-> k < ceil_div a b).
Proof.
  intros Hb. unfold ceil_div.
  pose proof (Z.div_mod (- a) b ltac:(lia)) as Hdm.
  pose proof (Z.mod_pos_bound (- a) b Hb) as Hmod.
  split; intros H; nia.
Qed.

Lemma range_loop_fixed every start stop fuel : forall k,
  months every = 0 -> 0 < micros every -> 0 <= k ->
  let n := ceil_div (stop - timestamp_us start) (micros every) in
  (Z.to_nat (n - k) < fuel)%nat ->
  range_loop fuel every start stop k
  = (fun j => timestamp_us start + j * micros every) <$> seqZ k (n - k).
Proof.
  induction fuel as [|fuel IH]; intros k Hm He Hk n Hf; [lia|].
  simpl. rewrite offset_by_fixed by assumption.
  pose proof (ceil_div_spec (stop - timestamp_us start) (micros every) k He)
    as Hspec. fold n in Hspec.
  destruct (Z.ltb_spec (timestamp_us start + k * micros every) stop) as [Hlt|Hge].
  - assert (k < n) by (apply Hspec; lia).
    rewrite seqZ_cons by lia. simpl. f_equal.
    rewrite IH by (try assumption; lia).
    f_equal. f_equal; lia.
  - assert (~ k < n) by (intros Hc; apply Hspec in Hc; lia).
    rewrite seqZ_nil by lia. reflexivity.
Qed.

Lemma ceil_div_nonneg a b : 0 < b -> 0 <= a -> 0 <= ceil_div a b.
Proof.
  intros Hb Ha. unfold ceil_div.
  pose proof (Z.div_mod (- a) b ltac:(lia)).
  pose proof (Z.mod_pos_bound (- a) b Hb). nia.
Qed.

Lemma ceil_div_fuel a b :
  1000000 <= b -> 0 <= a -> ceil_div a b <= a / 1000000 + 1.
Proof.
  intros Hb Ha. unfold ceil_div.
  pose proof (Z.div_mod (- a) b ltac:(lia)).
  pose proof (Z.mod_pos_bound (- a) b ltac:(lia)).
  pose proof (Z.div_mod a 1000000 ltac:(lia)).
  pose proof (Z.mod_pos_bound a 1000000 ltac:(lia)).
  nia.
Qed.

Lemma datetime_range_fixed start stop i :
  months (parse_interval i) = 0 ->
  timestamp_us start <= timestamp_us stop ->
  datetime_range start stop i
  = (fun j => timestamp_us start + j * micros (parse_interval i))
    <$> seqZ 0 (ceil_div (timestamp_us stop - timestamp_us start)
                  (micros (parse_interval i))).
Proof.
  intros Hm Hle. unfold datetime_range.
  destruct (Z.gtb_spec (timestamp_us start) (timestamp_us stop)); [lia|].
  destruct (parse_interval_cases i) as [[_ Hu]|[Hm' _]]; [|congruence].
  rewrite range_loop_fixed; try assumption; try lia.
  - now rewrite Z.sub_0_r.
  - rewrite Z.sub_0_r. unfold range_fuel.
    pose proof (ceil_div_fuel (timestamp_us stop - timestamp_us start)
                  (micros (parse_interval i)) Hu ltac:(lia)).
    pose proof (ceil_div_nonneg (timestamp_us stop - timestamp_us start)
                  (micros (parse_interval i)) ltac:(lia) ltac:(lia)).
    lia.
Qed.

(** ** Left joins *)

Section Join.
Context {L R : Type} (lkey : L -> Z) (rkey : R -> option Z).

Local Abbreviation matching := (Frames.matching lkey rkey).

(** A row of the join: a left row, and a right row of the same key or no
    right row when there is none of that key. *)
Lemma join_left_elem left right x o :
  (x, o) ∈ join_left lkey rkey left right ->
  x ∈ left
  /\ match o with
     | Some y => y ∈ right /\ rkey y = Some (lkey x)
     | None => forall y, y ∈ right -> rkey y <> Some (lkey x)
     end.
Proof.
  unfold join_left. rewrite list_elem_of_bind. intros (x' & Hin & Hx').
  destruct (matching x' right) as [|y0 ms] eqn:E.
  - apply list_elem_of_singleton in Hin. injection Hin as -> ->.
    split; [assumption|]. intros y Hy Hk.
    assert (Hm : y ∈ matching x' right)
      by (unfold Frames.matching; apply list_elem_of_filter; auto).
    rewrite E in Hm. inversion Hm.
  - apply list_elem_of_fmap in Hin as (y & [= -> ->] & Hy).
    split; [assumption|]. rewrite <- E in Hy.
    unfold Frames.matching in Hy. apply list_elem_of_filter in Hy. tauto.
Qed.

(** Every left row is kept. *)
Lemma join_left_covers left right x :
  x ∈ left -> exists o, (x, o) ∈ join_left lkey rkey left right.
Proof.
  intros Hx. unfold join_left.
  destruct (matching x right) as [|y0 ms] eqn:E.
  - exists None. apply list_elem_of_bind. exists x. split; [|assumption].
    rewrite E. apply list_elem_of_here.
  - exists (Some y0). apply list_elem_of_bind. exists x. split; [|assumption].
    rewrite E. simpl. apply list_elem_of_here.
Qed.

(** The left rows of the join: each left row, as many times as it has
    matches, and once when it has none. *)
Lemma join_left_fst left right :
  (join_left lkey rkey left right).*1
  = left ≫= (fun x => replicate (Nat.max 1 (length (matching x right))) x).
Proof.
  unfold join_left. induction left as [|x left IH]; [reflexivity|].
  cbn [mbind list_bind]. rewrite fmap_app, IH. f_equal.
  destruct (matching x right) as [|y0 ms]; [reflexivity|].
  change (Nat.max 1 (length (y0 :: ms))) with (S (length ms)).
  rewrite <- list_fmap_compose. simpl. f_equal.
  clear. induction ms as [|y ms IH]; [reflexivity|]. simpl. now f_equal.
Qed.



(** Repeating the rows of a frame in place keeps the order of its keys. *)
Lemma repeated_sorted (n : L -> nat) left :
  StronglySorted Z.le (lkey <$> left) ->
  StronglySorted Z.le (lkey <$> (left ≫= (fun x => replicate (n x) x))).
Proof.
  induction left as [|x left IH]; intros Hs; [constructor|].
  cbn [mbind list_bind]. rewrite fmap_app.
  rewrite fmap_cons in Hs. apply StronglySorted_cons in Hs as [Hx Hs].
  apply StronglySorted_app. split; [|split].
  - intros a b Ha Hb.
    apply list_elem_of_fmap in Ha as (x' & -> & Hx').
    apply elem_of_replicate in Hx' as [-> _].
    apply list_elem_of_fmap in Hb as (y & -> & Hy).
    apply list_elem_of_bind in Hy as (y' & Hy & Hy').
    apply elem_of_replicate in Hy as [-> _].
    rewrite Forall_forall in Hx. apply Hx.
    apply list_elem_of_fmap. eauto.
  - rewrite fmap_replicate. clear.
    induction (n x) as [|k IHk]; simpl; constructor; [assumption|].
    apply Forall_forall. intros a Ha.
    apply elem_of_replicate in Ha as [-> _]. lia.
  - now apply IH.
Qed.

Lemma join_left_sorted left right :
  StronglySorted Z.le (lkey <$> left) ->
  StronglySorted Z.le (lkey <$> (join_left lkey rkey left right).*1).
Proof. intros Hs. rewrite join_left_fst. now apply repeated_sorted. Qed.

End Join.

Lemma sorted_lt_le l : StronglySorted Z.lt l -> StronglySorted Z.le l.
Proof.
  induction 1 as [|x l Hs IH Hx]; constructor; [assumption|].
  eapply Forall_impl; [exact Hx|]. simpl. intros; lia.
Qed.

End FramesFacts.

(* ===================================================================== *)
(** * Facts about the adapter *)
(* ===================================================================== *)

Module AdapterFacts.
Import Calendar Granularity Enums Frames Adapter Specification.
Import CalendarFacts GranularityFacts FramesFacts.

Section WithValues.
Context {V : Type}.

Implicit Types (self : BinanceAdapter) (fs : Store V)
  (config : BinanceDataConfig) (start stop : datetime)
  (g : BinanceDataGranularity).

(** ** The loop of [_load_ohlcv] *)

Lemma next_chunk_errors g t e :
  next_chunk g t = Raise e -> e = OverflowError \/ e = ValueError.
Proof.
  destruct g; simpl.
  - unfold add_relativedelta_days1.
    repeat match goal with |- context [if ?b then _ else _] => destruct b end;
      simpl; intros [= <-]; auto.
  - unfold add_relativedelta_months1.
    repeat match goal with |- context [if ?b then _ else _] => destruct b end;
      simpl; intros [= <-]; auto.
Qed.

(** The loop raises only what [next_chunk] raises, at a cursor before the
    end: it divides by no zero and its bound is not reached. *)
Lemma load_loop_raise self fs config start stop g fuel : forall c st e,
  valid_datetime c ->
  timestamp_us start <= timestamp_us c ->
  timestamp_us stop - (timestamp_us c - time_us c)
    <= (Z.of_nat fuel - 1) * day_us ->
  (1 <= fuel)%nat ->
  load_loop fuel self fs config start stop g
    (timestamp_us stop - timestamp_us start) c st = Raise e ->
  exists c', valid_datetime c' /\ timestamp_us c' < timestamp_us stop
             /\ next_chunk g c' = Raise e.
Proof.
  induction fuel as [|fuel IH]; intros c st e Hc Hsc Hf H1 Hr; [lia|].
  simpl in Hr. unfold dt_ltb in Hr.
  destruct (Z.ltb_spec (timestamp_us c) (timestamp_us stop)) as [Hlt|Hge];
    [|discriminate].
  destruct (next_chunk g c) as [c'|e'] eqn:En.
  - simpl in Hr. unfold truediv in Hr.
    destruct (Z.eqb_spec (timestamp_us stop - timestamp_us start) 0); [lia|].
    simpl in Hr.
    pose proof (valid_datetime_inv c Hc) as (_ & Htime & _).
    pose proof (next_chunk_step g c c' Hc En) as (Hv & _ & Ht0 & _ & Hstep).
    unfold day_us in *.
    eapply (IH c'); [assumption | lia | lia | lia | exact Hr].
  - simpl in Hr. injection Hr as ->. eauto.
Qed.

Lemma load_fuel_enough start stop :
  valid_datetime start ->
  timestamp_us stop - (timestamp_us start - time_us start)
    <= (Z.of_nat (load_fuel start stop) - 1) * day_us
  /\ (1 <= load_fuel start stop)%nat.
Proof.
  intros Hs. apply valid_datetime_inv in Hs as (_ & Htime & _).
  unfold load_fuel. split; [|lia].
  set (span := timestamp_us stop - timestamp_us start).
  replace (timestamp_us stop - (timestamp_us start - time_us start))
    with (span + time_us start) by (unfold span; lia).
  unfold day_us in *.
  pose proof (Z.div_mod span 86400000000 ltac:(lia)).
  pose proof (Z.mod_pos_bound span 86400000000 ltac:(lia)).
  lia.
Qed.

(** [_load_ohlcv] raises only what [next_chunk] raises at a cursor before
    the end. *)
Lemma _load_ohlcv_raise self fs config start stop g e :
  valid_datetime start ->
  _load_ohlcv self fs config start stop g = Raise e ->
  exists c, valid_datetime c /\ timestamp_us c < timestamp_us stop
            /\ next_chunk g c = Raise e.
Proof.
  intros Hs. unfold _load_ohlcv.
  destruct (load_fuel_enough start stop Hs) as [Hf H1].
  destruct (load_loop _ _ _ _ _ _ _ _ _ _) as [st|e'] eqn:E.
  - simpl. destruct (_ =? _)%nat; discriminate.
  - simpl. intros [= <-].
    eapply load_loop_raise in E; [exact E | exact Hs | lia | exact Hf | exact H1].
Qed.

(** Before an end that lies in a year before the last, every cursor has a
    next chunk. *)
Lemma next_chunk_in_range g c stop :
  valid_datetime c -> valid_datetime stop ->
  year (dt_date stop) < MAXYEAR ->
  timestamp_us c < timestamp_us stop ->
  exists c', next_chunk g c = Ok c'.
Proof.
  intros Hc Hs Hy Hlt.
  apply valid_datetime_inv in Hc as (Hdc & Htc & Hzc).
  apply valid_datetime_inv in Hs as (Hds & Hts & Hzs).
  pose proof (toordinal_in_year _ (valid_in_calendar _ Hds)) as [_ Hos].
  pose proof (days_before_year_mono (year (dt_date stop) + 1) 9999
                ltac:(unfold MAXYEAR in Hy; lia)) as Hmono.
  assert (Hord : toordinal (dt_date c) <= _days_before_year 9999 + 2).
  { unfold timestamp_us, day_us in *. lia. }
  pose proof (valid_date_inv _ Hdc) as (Hyc & Hmc & Hdayc).
  assert (Hnot : ~ (year (dt_date c) = 9999 /\ month (dt_date c) = 12)).
  { intros [Hy9 Hm12]. unfold toordinal in Hord. rewrite Hy9, Hm12 in Hord.
    unfold _days_before_month in Hord. simpl in Hord. lia. }
  destruct g; simpl.
  - destruct (add_days1_defined (dt_date c) Hdc) as [d' ->]; [|simpl; eauto].
    intros Heq. apply Hnot. rewrite Heq. simpl. lia.
  - destruct (add_months1_defined (dt_date c) Hdc Hnot) as [d' ->].
    simpl; eauto.
Qed.

Lemma _load_ohlcv_total self fs config start stop g :
  valid_datetime start -> valid_datetime stop ->
  year (dt_date stop) < MAXYEAR ->
  exists rows tr, _load_ohlcv self fs config start stop g = Ok (rows, tr).
Proof.
  intros Hs He Hy.
  destruct (_load_ohlcv self fs config start stop g) as [[rows tr]|e] eqn:E;
    [eauto|].
  apply _load_ohlcv_raise in E as (c & Hc & Hlt & Hr); [|assumption].
  destruct (next_chunk_in_range g c stop Hc He Hy Hlt) as [c' Hc'].
  congruence.
Qed.

(** When the end is not after the start the loop does not run. *)
Lemma _load_ohlcv_empty self fs config start stop g :
  timestamp_us stop <= timestamp_us start ->
  _load_ohlcv self fs config start stop g = Ok ([], []).
Proof.
  intros Hle. unfold _load_ohlcv, load_fuel. simpl. unfold dt_ltb.
  destruct (Z.ltb_spec (timestamp_us start) (timestamp_us stop)); [lia|].
  reflexivity.
Qed.

(** What the loop adds to its trace: the paths it looks up, and progress
    over a positive number of seconds. *)
Lemma load_loop_trace self fs config start stop g fuel : forall c st st',
  valid_datetime c ->
  timestamp_us start <= timestamp_us c ->
  load_loop fuel self fs config start stop g
    (timestamp_us stop - timestamp_us start) c st = Ok st' ->
  forall a b, Update a b ∈ trace st' ->
    Update a b ∈ trace st
    \/ (b = timestamp_us stop - timestamp_us start /\ 0 < b).
Proof.
  induction fuel as [|fuel IH]; intros c st st' Hc Hsc Hr a b Hin;
    [discriminate|].
  simpl in Hr. unfold dt_ltb in Hr.
  destruct (Z.ltb_spec (timestamp_us c) (timestamp_us stop)) as [Hlt|Hge];
    [|injection Hr as <-; now left].
  destruct (next_chunk g c) as [c'|e'] eqn:En; [|discriminate].
  simpl in Hr. unfold truediv in Hr.
  destruct (Z.eqb_spec (timestamp_us stop - timestamp_us start) 0); [lia|].
  simpl in Hr.
  pose proof (valid_datetime_inv c Hc) as (_ & Htime & _).
  pose proof (next_chunk_step g c c' Hc En) as (Hv & _ & Ht0 & _ & Hstep).
  unfold day_us in *.
  destruct (IH c' _ st' Hv ltac:(lia) Hr a b Hin) as [Hold|Hnew];
    [|now right].
  simpl in Hold. apply elem_of_app in Hold as [Hold|Hold]; [now left|].
  apply elem_of_cons in Hold as [Hold|Hold]; [discriminate|].
  apply list_elem_of_singleton in Hold. injection Hold as -> ->.
  right. split; [reflexivity|lia].
Qed.

Lemma _load_ohlcv_trace self fs config start stop g rows tr :
  valid_datetime start ->
  _load_ohlcv self fs config start stop g = Ok (rows, tr) ->
  forall a b, Update a b ∈ tr ->
    b = timestamp_us stop - timestamp_us start /\ 0 < b.
Proof.
  intros Hs. unfold _load_ohlcv.
  destruct (load_loop _ _ _ _ _ _ _ _ _ _) as [st|e'] eqn:E; [|discriminate].
  simpl. intros Hr a b Hin.
  assert (Htr : tr = trace st).
  { unfold mret, result_ret in Hr. destruct (_ =? _)%nat; congruence. }
  subst tr.
  destruct (load_loop_trace self fs config start stop g _ start _ st Hs
              (Z.le_refl _) E a b Hin)
    as [Hold|Hnew]; [inversion Hold|assumption].
Qed.

(** ** The frame [filled_data] *)

Lemma fill_date_times tl (D M : list (OHLCVRow V)) :
  f_date_time <$> fill tl D M
  = (join_left fst date_time (join_left id date_time tl D) M).*1.*1.
Proof.
  unfold fill. rewrite <- !list_fmap_compose.
  apply list_fmap_ext. intros _ [[t d] m] _. reflexivity.
Qed.

(** A row of the frame: a tick, the row of each source at that tick or
    none, and the five coalesced fields. *)
Lemma fill_elem tl (D M : list (OHLCVRow V)) f :
  f ∈ fill tl D M ->
  f_date_time f ∈ tl
  /\ match daily f with
     | Some d => d ∈ D /\ date_time d = Some (f_date_time f)
     | None => forall d, d ∈ D -> date_time d <> Some (f_date_time f)
     end
  /\ match monthly f with
     | Some m => m ∈ M /\ date_time m = Some (f_date_time f)
     | None => forall m, m ∈ M -> date_time m <> Some (f_date_time f)
     end
  /\ f_open f = coalesce (open_daily f) (open_monthly f)
  /\ f_high f = coalesce (high_daily f) (high_monthly f)
  /\ f_low f = coalesce (low_daily f) (low_monthly f)
  /\ f_close f = coalesce (close_daily f) (close_monthly f)
  /\ f_volume f = coalesce (volume_daily f) (volume_monthly f).
Proof.
  unfold fill. intros Hin.
  apply list_elem_of_fmap in Hin as ([[t d] m] & -> & Hin).
  apply join_left_elem in Hin as [Hin Hm].
  apply join_left_elem in Hin as [Hin Hd].
  simpl in *. repeat split; try assumption; try reflexivity;
    try (destruct d; tauto); try (destruct m; tauto).
Qed.

(** Every tick has a row. *)
Lemma fill_covers tl (D M : list (OHLCVRow V)) t :
  t ∈ tl -> exists f, f ∈ fill tl D M /\ f_date_time f = t.
Proof.
  intros Ht.
  destruct (join_left_covers id date_time tl D t Ht) as [d Hd].
  destruct (join_left_covers fst date_time _ M (t, d) Hd) as [m Hm].
  eexists. split.
  - unfold fill. apply list_elem_of_fmap. exists (t, d, m). split; [|exact Hm].
    reflexivity.
  - reflexivity.
Qed.


(** In any case the ticks of the frame never decrease. *)
Lemma fill_sorted tl (D M : list (OHLCVRow V)) :
  StronglySorted Z.lt tl ->
  StronglySorted Z.le (f_date_time <$> fill tl D M).
Proof.
  intros Hs. rewrite fill_date_times.
  apply (join_left_sorted fst date_time).
  pose proof (join_left_sorted id date_time tl D) as H.
  rewrite !list_fmap_id in H. apply H. now apply sorted_lt_le.
Qed.



Context `{!EqDecision V}.

(** ** [load_ohlcv] *)

(** Given the two series, [load_ohlcv] returns. *)
Lemma load_ohlcv_loads self fs config start stop dd md tr1 tr2 :
  _load_ohlcv self fs config start stop DAILY = Ok (dd, tr1) ->
  _load_ohlcv self fs config start stop MONTHLY = Ok (md, tr2) ->
  exists out, loads self fs config start stop dd md out.
Proof.
  intros Hd Hm. unfold loads, load_ohlcv. rewrite Hd, Hm. simpl.
  eexists. exists tr1, tr2. repeat split.
Qed.

(** Within the range of the calendar both series load. *)
Lemma load_ohlcv_total self fs config start stop :
  in_range start stop ->
  exists dd md out, loads self fs config start stop dd md out.
Proof.
  intros (Hs & He & Hy).
  destruct (_load_ohlcv_total self fs config start stop DAILY Hs He Hy)
    as (dd & tr1 & Hd).
  destruct (_load_ohlcv_total self fs config start stop MONTHLY Hs He Hy)
    as (md & tr2 & Hm).
  destruct (load_ohlcv_loads _ _ _ _ _ _ _ _ _ Hd Hm) as [out Hout].
  eauto.
Qed.

(** [load_ohlcv] raises only what one of its two loads raises. *)
Lemma load_ohlcv_raise self fs config start stop e :
  load_ohlcv self fs config start stop = Raise e ->
  exists g, _load_ohlcv self fs config start stop g = Raise e.
Proof.
  unfold load_ohlcv.
  destruct (_load_ohlcv self fs config start stop DAILY) as [[dd tr1]|e1] eqn:E1;
    [|simpl; intros [= <-]; eauto].
  destruct (_load_ohlcv self fs config start stop MONTHLY) as [[md tr2]|e2] eqn:E2;
    [|simpl; intros [= <-]; eauto].
  discriminate.
Qed.

(** On the rows of the frame the filter of [load_ohlcv] keeps those at
    which both sources matched and differ in a core field. *)
Lemma ambiguous_spec tl (D M : list (OHLCVRow V)) f :
  f ∈ fill tl D M -> ambiguous f = spec_ambiguous f.
Proof.
  intros Hin. apply fill_elem in Hin as (_ & Hd & Hm & _).
  unfold ambiguous, spec_ambiguous, date_time_daily, date_time_monthly,
    open_daily, open_monthly, high_daily, high_monthly, low_daily,
    low_monthly, close_daily, close_monthly, volume_daily, volume_monthly.
  destruct (daily f) as [d|], (monthly f) as [m|]; simpl.
  - destruct Hd as [_ ->], Hm as [_ ->]. simpl.
    rewrite !Bool.andb_true_r. unfold ne_missing, core.
    destruct d as [dt o h l c v], m as [dt' o' h' l' c' v']; simpl.
    repeat case_bool_decide; simpl; try reflexivity; congruence.
  - apply Bool.andb_false_r.
  - destruct (_ || _); reflexivity.
  - reflexivity.
Qed.






(** ** The claims about [load_ohlcv] *)




(** C5, as amended. A call with start after end raises nothing: neither
    loop runs, no archive is looked up, and the call returns an empty
    series with no ambiguous entry. *)
Theorem load_ohlcv_reversed self fs config start stop :
  before stop start ->
  load_ohlcv self fs config start stop
  = Ok {| series := [];
          ambiguous_entries := [];
          ambiguous_entries_count := 0;
          events := [] |}.
Proof.
  intros Hlt. unfold before in Hlt. unfold load_ohlcv.
  rewrite !_load_ohlcv_empty by lia. simpl.
  unfold datetime_range.
  destruct (Z.gtb_spec (timestamp_us start) (timestamp_us stop)); [|lia].
  reflexivity.
Qed.


(** C7. A call with start equal to end returns an empty series and no
    ambiguous entry, and looks up no archive. *)
Theorem load_ohlcv_empty_interval self fs config start stop :
  valid_datetime start ->
  timestamp_us start = timestamp_us stop ->
  exists out,
    load_ohlcv self fs config start stop = Ok out
    /\ series out = []
    /\ ambiguous_entries out = []
    /\ ambiguous_entries_count out = 0%nat
    /\ forall p, Lookup p ∉ events out.
Proof.
  intros Hv Heq.
  apply valid_datetime_inv in Hv as (Hd & _ & _).
  apply valid_in_calendar in Hd.
  unfold load_ohlcv. rewrite !_load_ohlcv_empty by lia. simpl.
  assert (Hr : datetime_range start stop (interval config) = []).
  { destruct (datetime_range start stop (interval config)) as [|t ts] eqn:E;
      [reflexivity|].
    pose proof (datetime_range_bounds start stop (interval config) t Hd) as Hb.
    rewrite E in Hb. specialize (Hb (list_elem_of_here _ _)). lia. }
  rewrite Hr. eexists. split; [reflexivity|]. simpl.
  repeat split. intros p Hin. inversion Hin.
Qed.

(** C10. The loop of [_load_ohlcv] never divides by zero: no call raises
    ZeroDivisionError, and whenever progress is reported, the division
    that computed it was by the positive number of seconds from start to
    end. With start equal to end the loop body, and the division in it, do
    not run. *)
Theorem progress_division_safe self fs config start stop :
  valid_datetime start ->
  (forall g,
     _load_ohlcv self fs config start stop g <> Raise ZeroDivisionError)
  /\ load_ohlcv self fs config start stop <> Raise ZeroDivisionError
  /\ (forall g rows tr a b,
        _load_ohlcv self fs config start stop g = Ok (rows, tr) ->
        Update a b ∈ tr ->
        b = timestamp_us stop - timestamp_us start /\ 0 < b)
  /\ (timestamp_us stop <= timestamp_us start ->
      forall g, _load_ohlcv self fs config start stop g = Ok ([], [])).
Proof.
  intros Hv.
  assert (Hg : forall g,
    _load_ohlcv self fs config start stop g <> Raise ZeroDivisionError).
  { intros g Hr. apply _load_ohlcv_raise in Hr as (c & _ & _ & Hr);
      [|exact Hv].
    apply next_chunk_errors in Hr as [Hr|Hr]; discriminate. }
  split; [exact Hg|].
  split.
  - intros Hr. apply load_ohlcv_raise in Hr as [g Hr]. now apply (Hg g).
  - split.
    + intros g rows tr a b Hl Hin.
      exact (_load_ohlcv_trace self fs config start stop g rows tr Hv Hl
               a b Hin).
    + intros Hle g. now apply _load_ohlcv_empty.
Qed.

End WithValues.

(** ** The unit of the timestamps *)

Lemma from_unix_cases config col d :
  in_calendar d ->
  _from_unix config col d
  = from_epoch col (spec_epoch_unit (instrument_type config) d).
Proof.
  intros Hd. unfold _from_unix, spec_epoch_unit, date_geb.
  assert (Hc : in_calendar (Date 2025 1 1)).
  { unfold in_calendar, _days_in_month. simpl. lia. }
  pose proof (toordinal_lt_iff d (Date 2025 1 1) Hd Hc) as Hiff.
  destruct (date_ltb d (Date 2025 1 1)) eqn:E.
  - assert (toordinal d < toordinal (Date 2025 1 1)) by now apply Hiff.
    rewrite Bool.andb_false_r, bool_decide_eq_false_2 by lia. reflexivity.
  - assert (~ toordinal d < toordinal (Date 2025 1 1)).
    { intros Hlt. apply Hiff in Hlt. congruence. }
    rewrite Bool.andb_true_r.
    destruct (decide (instrument_type config = SPOT)) as [Hs|Hs].
    + rewrite !bool_decide_eq_true_2 by (try split; auto; lia). reflexivity.
    + rewrite !bool_decide_eq_false_2 by tauto. reflexivity.
Qed.

(** C4. The unit in which the raw timestamps of a chunk are read depends on
    the instrument type and on the date of the chunk only: microseconds
    for Spot on or after 2025-01-01, milliseconds for Spot before that day
    and for every other instrument type on any day. Both [date_time] and
    [close_date_time] of every row of the chunk are decoded in that one
    unit. *)
Theorem from_unix_unit {V : Type} (self : BinanceAdapter) (fs : Store V)
    (config : BinanceDataConfig) (d : date) (g : BinanceDataGranularity) :
  valid_date d ->
  let u := spec_epoch_unit (instrument_type config) d in
  (forall col, _from_unix config col d = from_epoch col u)
  /\ (u = us <-> instrument_type config = SPOT
                 /\ toordinal (Date 2025 1 1) <= toordinal d)
  /\ (u = ms <-> instrument_type config <> SPOT
                 \/ toordinal d < toordinal (Date 2025 1 1))
  /\ forall chunk,
       _load_ohlcv_file self fs config d g = Some chunk ->
       exists raws,
         fs (archive_path self config d g) = Some raws
         /\ b_date_time <$> chunk
            = (fun r => epoch_us u <$> raw_date_time r) <$> raws
         /\ b_close_date_time <$> chunk
            = (fun r => epoch_us u <$> raw_close_date_time r) <$> raws.
Proof.
  intros Hd u. apply valid_in_calendar in Hd.
  split; [intros col; now apply from_unix_cases|].
  split; [|split].
  - unfold u, spec_epoch_unit. case_bool_decide; split; try tauto; discriminate.
  - unfold u, spec_epoch_unit. case_bool_decide as Hc; split; try tauto;
      try discriminate.
    + intros [Hn|Hlt]; [tauto|lia].
    + intros _.
      destruct (decide (instrument_type config = SPOT)); [right|now left].
      apply Z.nle_gt. tauto.
  - intros chunk. unfold _load_ohlcv_file, _find_file_path. cbv zeta.
    destruct (fs (archive_path self config d g)) as [raws|] eqn:E;
      simpl; [|discriminate].
    rewrite ?E. simpl.
    intros [= <-]. exists raws. split; [reflexivity|].
    rewrite <- !list_fmap_compose.
    rewrite !from_unix_cases by assumption. fold u.
    split; apply list_fmap_ext; intros _ r _; reflexivity.
Qed.

End AdapterFacts.

(* ===================================================================== *)
(** * The claims on the small archive store *)
(* ===================================================================== *)

Module Examples.
Import Calendar Granularity Enums Frames Adapter Specification Fixture.
Import GranularityFacts AdapterFacts.

Ltac by_computing :=
  vm_compute; first [reflexivity | exact I | discriminate | tauto].

Lemma in_range_two_minutes : in_range midnight_utc two_past.
Proof. repeat split; by_computing. Defined.


Lemma valid_midnight_utc : valid_datetime midnight_utc.
Proof. by_computing. Defined.






Lemma from_unix_unit_witness :
  valid_date (Date 2025 1 1)
  /\ _from_unix btcusdt_1m "date_time" (Date 2025 1 1)
     = from_epoch "date_time" us.
Proof.
  assert (Hd : valid_date (Date 2025 1 1)) by by_computing.
  split; [exact Hd|].
  destruct (from_unix_unit adapter agreeing btcusdt_1m (Date 2025 1 1) DAILY Hd)
    as [H _].
  rewrite H. by_computing.
Defined.

Lemma load_ohlcv_reversed_witness :
  before midnight_utc two_past
  /\ load_ohlcv adapter agreeing btcusdt_1m two_past midnight_utc
     = Ok {| series := [];
             ambiguous_entries := [];
             ambiguous_entries_count := 0;
             events := [] |}.
Proof.
  assert (Hb : before midnight_utc two_past) by by_computing.
  split; [exact Hb|].
  exact (load_ohlcv_reversed adapter agreeing btcusdt_1m two_past
           midnight_utc Hb).
Defined.

(** C5 fails as stated: a call whose start is after its end returns. *)
Lemma load_ohlcv_reversed_returns :
  before midnight_utc two_past
  /\ returns (load_ohlcv adapter agreeing btcusdt_1m two_past midnight_utc)
       (fun out => series out = [] /\ events out = []).
Proof. repeat split; by_computing. Qed.



Lemma load_ohlcv_empty_interval_witness :
  valid_datetime midnight_utc
  /\ timestamp_us midnight_utc = timestamp_us midnight_utc
  /\ exists out,
       load_ohlcv adapter agreeing btcusdt_1m midnight_utc midnight_utc
       = Ok out
       /\ series out = [] /\ ambiguous_entries out = []
       /\ ambiguous_entries_count out = 0%nat
       /\ forall p, Lookup p ∉ events out.
Proof.
  split; [exact valid_midnight_utc|]. split; [reflexivity|].
  exact (load_ohlcv_empty_interval adapter agreeing btcusdt_1m midnight_utc
           midnight_utc valid_midnight_utc eq_refl).
Defined.

Lemma next_chunk_boundary_witness :
  valid_datetime one_past
  /\ dt_date one_past <> Date 9999 12 31
  /\ exists t',
       next_chunk DAILY one_past = Ok t'
       /\ toordinal (dt_date t') = toordinal (dt_date one_past) + 1
       /\ before one_past t'.
Proof.
  assert (Hv : valid_datetime one_past) by by_computing.
  assert (Hn : dt_date one_past <> Date 9999 12 31) by discriminate.
  split; [exact Hv|]. split; [exact Hn|].
  destruct (next_chunk_boundary DAILY one_past Hv Hn)
    as (t' & Ht' & _ & _ & _ & _ & _ & _ & Ho & Hb & _).
  exists t'. repeat split; assumption.
Defined.

(** C9 fails as stated: on the last day that Python can hold there is no
    next boundary, and [next_chunk] raises. *)
Lemma next_chunk_last_day :
  valid_datetime last_day
  /\ next_chunk DAILY last_day = Raise OverflowError
  /\ next_chunk MONTHLY last_day = Raise ValueError.
Proof. repeat split; by_computing. Qed.

Lemma progress_division_safe_witness :
  valid_datetime midnight_utc
  /\ forall g,
       _load_ohlcv adapter agreeing btcusdt_1m midnight_utc midnight_utc g
       <> Raise ZeroDivisionError.
Proof.
  split; [exact valid_midnight_utc|].
  exact (proj1 (progress_division_safe adapter agreeing btcusdt_1m
                  midnight_utc midnight_utc valid_midnight_utc)).
Defined.


(** The request of tests/test_ohlcv.py, from 2020-01-30 to 2020-03-02 at
    one minute, has a timeline of 46,080 ticks. *)
Example test_monthly_ohlcv_ticks :
  Z.of_nat
    (length (datetime_range (Datetime (Date 2020 1 30) 0 0 0 0 0)
               (Datetime (Date 2020 3 2) 0 0 0 0 0) ONE_MINUTE))
  = 46080.
Proof.
  rewrite FramesFacts.datetime_range_fixed by by_computing.
  rewrite length_fmap, length_seqZ. by_computing.
Qed.

(** The day after the 29th of February 2020 and the month after January
    2020, from an instant within them. *)
Example next_chunk_leap_day :
  next_chunk DAILY (Datetime (Date 2020 2 29) 12 30 0 0 0)
  = Ok (Datetime (Date 2020 3 1) 0 0 0 0 0)
  /\ next_chunk MONTHLY (Datetime (Date 2020 1 30) 12 30 0 0 0)
     = Ok (Datetime (Date 2020 2 1) 0 0 0 0 0).
Proof. split; reflexivity. Qed.

End Examples.

(* ===================================================================== *)
(** * More about the granularities *)
(* ===================================================================== *)

Module GranularityMore.
Import Calendar Granularity Specification Observing.
Import CalendarFacts GranularityFacts.

(** [next_chunk] raises on the last day that exists (Daily, OverflowError)
    and in the last month (Monthly, ValueError), and nowhere else. *)
Theorem next_chunk_raises g t e :
  valid_datetime t ->
  next_chunk g t = Raise e
  <-> (g = DAILY /\ dt_date t = Date 9999 12 31 /\ e = OverflowError)
      \/ (g = MONTHLY /\ year (dt_date t) = 9999 /\ month (dt_date t) = 12
          /\ e = ValueError).
Proof.
  intros Ht. apply valid_datetime_inv in Ht as (Hd & _ & _).
  pose proof (valid_date_inv _ Hd) as (Hy & Hm & Hday).
  split.
  - intros Hr. destruct g.
    + left. split; [reflexivity|].
      destruct (decide (dt_date t = Date 9999 12 31)) as [Heq|Hne].
      * split; [exact Heq|]. simpl in Hr. rewrite Heq in Hr.
        vm_compute in Hr. congruence.
      * destruct (add_days1_defined _ Hd Hne) as [d' Hd'].
        simpl in Hr. rewrite Hd' in Hr. discriminate.
    + right. split; [reflexivity|].
      destruct (decide (year (dt_date t) = 9999 /\ month (dt_date t) = 12))
        as [[Hy9 Hm12]|Hne].
      * repeat split; try assumption. simpl in Hr.
        unfold add_relativedelta_months1, MAXYEAR in Hr.
        rewrite Hy9, Hm12 in Hr. simpl in Hr. congruence.
      * destruct (add_months1_defined _ Hd Hne) as [d' Hd'].
        simpl in Hr. rewrite Hd' in Hr. discriminate.
  - intros [(-> & Heq & ->)|(-> & Hy9 & Hm12 & ->)]; simpl.
    + rewrite Heq. reflexivity.
    + unfold add_relativedelta_months1, MAXYEAR. rewrite Hy9, Hm12.
      reflexivity.
Qed.

(** The boundary [next_chunk] returns is the first one after the instant:
    it is midnight of a chunk start, it is after the instant, and no
    midnight of a chunk start lies between the two. *)
Theorem next_chunk_least g t t' :
  valid_datetime t -> next_chunk g t = Ok t' ->
  t' = midnight (dt_date t') (tzinfo t)
  /\ boundary g (dt_date t')
  /\ before t t'
  /\ forall d,
       valid_date d -> boundary g d ->
       before t (midnight d (tzinfo t)) ->
       timestamp_us t' <= timestamp_us (midnight d (tzinfo t)).
Proof.
  intros Ht Hn.
  pose proof (next_chunk_later g t t' Ht Hn) as Hlater.
  pose proof (valid_datetime_inv t Ht) as (Hd & Htime & _).
  assert (Hshape : t' = midnight (dt_date t') (tzinfo t)
                   /\ boundary g (dt_date t')).
  { destruct g; simpl in Hn;
      [destruct (add_relativedelta_days1 (dt_date t)) as [d'|]
      |destruct (add_relativedelta_months1 (dt_date t)) as [d'|]];
      simpl in Hn; try discriminate; injection Hn as <-; simpl;
      split; reflexivity || exact I. }
  destruct Hshape as [Hmid Hb].
  repeat (split; [assumption|]).
  intros d Hvd Hbd Hbefore.
  assert (Hord : toordinal (dt_date t) < toordinal d).
  { unfold before, timestamp_us, time_us, midnight in Hbefore.
    simpl in Hbefore. unfold time_us, day_us in *. lia. }
  assert (Hgoal : toordinal (dt_date t') <= toordinal d).
  { destruct g; simpl in Hn.
    - destruct (add_relativedelta_days1 (dt_date t)) as [d'|] eqn:E;
        simpl in Hn; [|discriminate].
      injection Hn as <-. simpl.
      apply add_days1_ok in E as [_ E]; [|assumption].
      replace (Date (year d') (month d') (day d')) with d' by now destruct d'.
      lia.
    - destruct (add_relativedelta_months1 (dt_date t)) as [d'|] eqn:E;
        simpl in Hn; [|discriminate].
      injection Hn as <-. simpl. simpl in Hbd.
      apply add_months1_ok in E as (_ & Hv1 & E); [|assumption].
      rewrite E.
      (* [d] is the first day of a month after the month of [t] *)
      apply toordinal_lt_iff in Hord;
        [|now apply valid_in_calendar|now apply valid_in_calendar].
      pose proof (valid_date_inv _ Hd) as (Hy & Hm & Hday).
      pose proof (valid_date_inv _ Hvd) as (Hyd & Hmd & _).
      unfold date_ltb in Hord.
      assert (Hlater_month :
        year (dt_date t) < year d
        \/ (year (dt_date t) = year d /\ month (dt_date t) < month d)).
      { destruct (Z.ltb_spec (year (dt_date t)) (year d)); [now left|].
        destruct (Z.eqb_spec (year (dt_date t)) (year d)); [|discriminate].
        destruct (Z.ltb_spec (month (dt_date t)) (month d)); [now right|].
        destruct (Z.eqb_spec (month (dt_date t)) (month d)); [|discriminate].
        simpl in Hord. apply Z.ltb_lt in Hord. lia. }
      unfold toordinal. simpl. rewrite Hbd.
      pose proof (days_before_month_bounds (year (dt_date t))
                    (month (dt_date t)) Hm) as [_ Hyear].
      pose proof (days_before_month_bounds (year d) (month d) Hmd) as [H0 _].
      destruct Hlater_month as [Hyl|[Hye Hml]].
      + pose proof (days_before_year_mono (year (dt_date t) + 1) (year d)
                      ltac:(lia)) as Hmono.
        rewrite days_before_next_year in Hmono. lia.
      + rewrite <- Hye.
        pose proof (days_before_month_mono (year (dt_date t))
                      (month (dt_date t)) (month d) Hm Hmd Hml). lia. }
  rewrite Hmid. unfold timestamp_us, time_us, midnight. simpl.
  unfold day_us. lia.
Qed.

(** How far the boundary is: for Daily what is left of the day, a day at
    most; for Monthly what is left of the month, 31 days at most. *)
Theorem next_chunk_gap g t t' :
  valid_datetime t -> next_chunk g t = Ok t' ->
  let left_days :=
    match g with
    | DAILY => 1
    | MONTHLY =>
        _days_in_month (year (dt_date t)) (month (dt_date t))
        - day (dt_date t) + 1
    end in
  timestamp_us t' - timestamp_us t = left_days * day_us - time_us t
  /\ 0 < timestamp_us t' - timestamp_us t
       <= (match g with DAILY => 1 | MONTHLY => 31 end) * day_us.
Proof.
  intros Ht Hn left_days.
  pose proof (valid_datetime_inv t Ht) as (Hd & Htime & _).
  pose proof (valid_date_inv _ Hd) as (Hy & Hm & Hday).
  pose proof (next_chunk_step g t t' Ht Hn) as (_ & Htz & Ht0 & _ & _).
  assert (Hord : toordinal (dt_date t') = toordinal (dt_date t) + left_days).
  { unfold left_days. destruct g; simpl in Hn.
    - destruct (add_relativedelta_days1 (dt_date t)) as [d'|] eqn:E;
        simpl in Hn; [|discriminate].
      injection Hn as <-. simpl.
      apply add_days1_ok in E as [_ E]; [|assumption].
      now destruct d'.
    - destruct (add_relativedelta_months1 (dt_date t)) as [d'|] eqn:E;
        simpl in Hn; [|discriminate].
      injection Hn as <-. simpl.
      apply add_months1_ok in E as (_ & _ & E); [|assumption].
      rewrite E. unfold toordinal. simpl. lia. }
  assert (Hgap : timestamp_us t' - timestamp_us t
                 = left_days * day_us - time_us t).
  { unfold timestamp_us. rewrite Hord, Ht0, Htz. lia. }
  split; [exact Hgap|]. rewrite Hgap.
  pose proof (days_in_month_bounds (year (dt_date t)) (month (dt_date t)) Hm).
  unfold left_days, day_us in *. destruct g; lia.
Qed.

End GranularityMore.

(* ===================================================================== *)
(** * More about the archives *)
(* ===================================================================== *)

Module ArchiveFacts.
Import Calendar Granularity Enums Frames Adapter Specification Observing.
Import CalendarFacts GranularityFacts.

Local Open Scope string_scope.
Local Open Scope Z_scope.

(** ** Strings *)

Lemma length_append (s t : string) :
  String.length (s ++ t) = (String.length s + String.length t)%nat.
Proof. induction s as [|c s IH]; simpl; [reflexivity|now rewrite IH]. Qed.

Lemma append_inv (s1 s2 t1 t2 : string) :
  String.length s1 = String.length s2 ->
  s1 ++ t1 = s2 ++ t2 -> s1 = s2 /\ t1 = t2.
Proof.
  revert s2. induction s1 as [|c s1 IH]; intros [|c2 s2] Hlen Heq;
    simpl in *; try discriminate.
  - now split.
  - injection Heq as -> Heq. injection Hlen as Hlen.
    destruct (IH s2 Hlen Heq) as [-> ->]. now split.
Qed.

Lemma append_inv_tail (s1 s2 t : string) : s1 ++ t = s2 ++ t -> s1 = s2.
Proof.
  intros Heq. apply (append_inv s1 s2 t t); [|exact Heq].
  apply (f_equal String.length) in Heq. rewrite !length_append in Heq. lia.
Qed.

(** ** The numbers of a key *)

(** A number of at most four digits is read back from what [format_0d]
    writes. *)
Lemma format_read_back n :
  0 <= n <= 9999 -> int_of_digits 0 (format_0d 2 n) = n.
Proof.
  intros Hn.
  assert (Hall : forallb (fun n => int_of_digits 0 (format_0d 2 n) =? n)
                   (seqZ 0 10000) = true) by (vm_compute; reflexivity).
  rewrite forallb_forall in Hall.
  apply Z.eqb_eq, Hall, list_elem_of_In, elem_of_seqZ. lia.
Qed.

(** Below 100 it is written in two characters. *)
Lemma format_two_characters n :
  0 <= n <= 99 -> String.length (format_0d 2 n) = 2%nat.
Proof.
  intros Hn.
  assert (Hall : forallb (fun n => (String.length (format_0d 2 n) =? 2)%nat)
                   (seqZ 0 100) = true) by (vm_compute; reflexivity).
  rewrite forallb_forall in Hall.
  apply Nat.eqb_eq, Hall, list_elem_of_In, elem_of_seqZ. lia.
Qed.

Lemma format_inj n1 n2 :
  0 <= n1 <= 9999 -> 0 <= n2 <= 9999 ->
  format_0d 2 n1 = format_0d 2 n2 -> n1 = n2.
Proof.
  intros H1 H2 Heq.
  rewrite <- (format_read_back n1 H1), <- (format_read_back n2 H2).
  now rewrite Heq.
Qed.

Lemma valid_date_numbers d :
  valid_date d ->
  0 <= year d <= 9999 /\ 0 <= month d <= 99 /\ 0 <= day d <= 99.
Proof.
  intros Hd. apply valid_date_inv in Hd as (Hy & Hm & Hday).
  pose proof (days_in_month_bounds (year d) (month d) Hm). lia.
Qed.

(** Two dates have the same Monthly key only in the same month. *)
Lemma file_date_monthly_inj d1 d2 :
  valid_date d1 -> valid_date d2 ->
  file_date MONTHLY d1 = file_date MONTHLY d2 ->
  year d1 = year d2 /\ month d1 = month d2.
Proof.
  intros Hv1 Hv2 Heq.
  destruct (valid_date_numbers d1 Hv1) as (Hy1 & Hm1 & _).
  destruct (valid_date_numbers d2 Hv2) as (Hy2 & Hm2 & _).
  unfold file_date in Heq.
  pose proof (f_equal String.length Heq) as Hlen.
  rewrite !length_append in Hlen.
  rewrite (format_two_characters (month d1) Hm1),
    (format_two_characters (month d2) Hm2) in Hlen.
  apply (append_inv (format_0d 2 (year d1)) (format_0d 2 (year d2)))
    in Heq as [HY Heq]; [|simpl in Hlen; lia].
  injection Heq as HM.
  split; apply format_inj; try assumption; lia.
Qed.

(** Two dates have the same Daily key only when they are the same day. *)
Lemma file_date_daily_inj d1 d2 :
  valid_date d1 -> valid_date d2 ->
  file_date DAILY d1 = file_date DAILY d2 -> d1 = d2.
Proof.
  intros Hv1 Hv2 Heq.
  destruct (valid_date_numbers d1 Hv1) as (Hy1 & Hm1 & Hd1).
  destruct (valid_date_numbers d2 Hv2) as (Hy2 & Hm2 & Hd2).
  unfold file_date in Heq.
  pose proof (f_equal String.length Heq) as Hlen.
  rewrite !length_append in Hlen.
  rewrite (format_two_characters (month d1) Hm1),
    (format_two_characters (month d2) Hm2),
    (format_two_characters (day d1) Hd1),
    (format_two_characters (day d2) Hd2) in Hlen.
  apply (append_inv (format_0d 2 (year d1)) (format_0d 2 (year d2)))
    in Heq as [HY Heq]; [|simpl in Hlen; lia].
  injection Heq as Heq.
  apply (append_inv (format_0d 2 (month d1)) (format_0d 2 (month d2)))
    in Heq as [HM Heq];
    [|now rewrite (format_two_characters _ Hm1),
        (format_two_characters _ Hm2)].
  injection Heq as HD.
  destruct d1 as [y1 m1 dd1], d2 as [y2 m2 dd2]; simpl in *.
  f_equal; apply format_inj; try assumption; lia.
Qed.

(** The key of a date names its chunk, and nothing but its chunk: two
    dates have the same key exactly when they are the same day (Daily) or
    lie in the same month (Monthly). *)
Theorem file_date_names_chunk g d1 d2 :
  valid_date d1 -> valid_date d2 ->
  file_date g d1 = file_date g d2 <-> same_chunk g d1 d2.
Proof.
  intros Hv1 Hv2. destruct g; simpl; split.
  - now apply file_date_daily_inj.
  - now intros ->.
  - now apply file_date_monthly_inj.
  - unfold file_date. now intros [-> ->].
Qed.

(** ** The path of an archive *)

Lemma instrument_type_str_inj a b :
  instrument_type_str a = instrument_type_str b -> a = b.
Proof. destruct a, b; simpl; intros H; first [reflexivity|discriminate]. Qed.

Lemma data_type_str_inj a b : data_type_str a = data_type_str b -> a = b.
Proof. destruct a, b; simpl; intros H; first [reflexivity|discriminate]. Qed.

Lemma granularity_str_inj a b : granularity_str a = granularity_str b -> a = b.
Proof. destruct a, b; simpl; intros H; first [reflexivity|discriminate]. Qed.

Lemma interval_str_inj a b : interval_str a = interval_str b -> a = b.
Proof. destruct a, b; simpl; intros H; first [reflexivity|discriminate]. Qed.

(** Two look-ups of an adapter that go to the same archive are for the
    same configuration, the same granularity and the same chunk. *)
Lemma archive_path_inj self c1 c2 g1 g2 d1 d2 :
  valid_date d1 -> valid_date d2 ->
  archive_path self c1 d1 g1 = archive_path self c2 d2 g2 ->
  c1 = c2 /\ g1 = g2 /\ same_chunk g1 d1 d2.
Proof.
  intros Hv1 Hv2. unfold archive_path. intros Heq.
  apply app_inv_head in Heq. simpl in Heq.
  injection Heq as Hi Hg Ht Hs Hint Hfile.
  apply instrument_type_str_inj in Hi.
  apply granularity_str_inj in Hg.
  apply data_type_str_inj in Ht.
  apply interval_str_inj in Hint.
  subst g2. rewrite <- Hs, <- Hint in Hfile.
  do 4 apply String.app_inj in Hfile.
  apply append_inv_tail in Hfile.
  split; [|split; [reflexivity|]].
  - destruct c1, c2; simpl in *; congruence.
  - destruct g1; simpl.
    + now apply file_date_daily_inj.
    + now apply file_date_monthly_inj.
Qed.


(** ** The chunk of a date *)

Lemma from_unix_same_month config col d1 d2 :
  valid_date d1 -> valid_date d2 ->
  year d1 = year d2 -> month d1 = month d2 ->
  _from_unix config col d1 = _from_unix config col d2.
Proof.
  intros Hv1 Hv2 Hy Hm.
  apply valid_date_inv in Hv1 as (_ & Hm1 & Hd1).
  apply valid_date_inv in Hv2 as (_ & Hm2 & Hd2).
  unfold _from_unix, date_geb, date_ltb. simpl. rewrite Hy, Hm.
  replace (day d1 <? 1) with false by (symmetry; apply Z.ltb_ge; lia).
  replace (day d2 <? 1) with false by (symmetry; apply Z.ltb_ge; lia).
  reflexivity.
Qed.

(** What [_load_ohlcv_file] loads depends on the date only through the
    chunk the date names: for Monthly, any day of a month gives the
    archive of that month, read in the same unit. *)
Theorem _load_ohlcv_file_chunk {V : Type} (self : BinanceAdapter)
    (fs : Store V) config g d1 d2 :
  valid_date d1 -> valid_date d2 -> same_chunk g d1 d2 ->
  _load_ohlcv_file self fs config d1 g = _load_ohlcv_file self fs config d2 g.
Proof.
  intros Hv1 Hv2 Hsame. destruct g; simpl in Hsame.
  - now subst d2.
  - destruct Hsame as [Hy Hm].
    unfold _load_ohlcv_file, _find_file_path. cbv zeta.
    assert (Hp : archive_path self config d1 MONTHLY
                 = archive_path self config d2 MONTHLY).
    { unfold archive_path, file_date. now rewrite Hy, Hm. }
    rewrite Hp.
    rewrite !(from_unix_same_month config _ d1 d2) by assumption.
    reflexivity.
Qed.

End ArchiveFacts.

(* ===================================================================== *)
(** * More about the loop of the builder *)
(* ===================================================================== *)

Module BuilderFacts.
Import Calendar Granularity Enums Frames Adapter Specification Observing.
Import CalendarFacts GranularityFacts FramesFacts AdapterFacts.
Import GranularityMore ArchiveFacts.

Section WithValues.
Context {V : Type}.

Implicit Types (self : BinanceAdapter) (fs : Store V)
  (config : BinanceDataConfig) (start stop : datetime)
  (g : BinanceDataGranularity).

(** ** The cursors of the loop *)

(** The loop, cursor by cursor. *)
Lemma load_loop_run self fs config start stop g fuel : forall c st st',
  load_loop fuel self fs config start stop g
    (timestamp_us stop - timestamp_us start) c st = Ok st' ->
  exists cs cf,
    run g stop c cs cf
    /\ chunks st'
       = chunks st
         ++ omap (fun c => _load_ohlcv_file self fs config (dt_date c) g) cs
    /\ trace st' = trace st ++ steps self config g start stop cs cf.
Proof.
  induction fuel as [|fuel IH]; intros c st st' Hr; [discriminate|].
  simpl in Hr. unfold dt_ltb in Hr.
  destruct (Z.ltb_spec (timestamp_us c) (timestamp_us stop)) as [Hlt|Hge].
  - destruct (next_chunk g c) as [c'|e'] eqn:En; [|discriminate].
    simpl in Hr. unfold truediv in Hr.
    destruct (timestamp_us stop - timestamp_us start =? 0); [discriminate|].
    simpl in Hr.
    apply IH in Hr as (cs & cf & Hrun & Hch & Htr).
    exists (c :: cs), cf. split; [|split].
    + now apply run_step with c'.
    + rewrite Hch. simpl.
      destruct (_load_ohlcv_file self fs config (dt_date c) g);
        simpl; [now rewrite <- app_assoc|reflexivity].
    + rewrite Htr. simpl. rewrite <- app_assoc. simpl.
      repeat f_equal.
      inversion Hrun; reflexivity.
  - injection Hr as <-. exists [], c. split; [|split].
    + apply run_done. unfold before. lia.
    + now rewrite app_nil_r.
    + now rewrite app_nil_r.
Qed.

Lemma _load_ohlcv_run self fs config start stop g rows tr :
  _load_ohlcv self fs config start stop g = Ok (rows, tr) ->
  exists cs cf,
    run g stop start cs cf
    /\ rows
       = concat
           (omap (fun c => _load_ohlcv_file self fs config (dt_date c) g) cs)
    /\ tr = steps self config g start stop cs cf.
Proof.
  unfold _load_ohlcv.
  destruct (load_loop _ _ _ _ _ _ _ _ _ _) as [st|e] eqn:E; [|discriminate].
  apply load_loop_run in E as (cs & cf & Hrun & Hch & Htr).
  simpl in Hch, Htr. simpl. unfold mret, result_ret.
  intros Hr. exists cs, cf. split; [exact Hrun|].
  rewrite <- Hch, <- Htr.
  destruct (chunks st) as [|ch chs] eqn:Ec; simpl in Hr;
    injection Hr as <- <-; split; reflexivity.
Qed.

(** From one cursor to the next the index of the chunk grows by one. *)
Lemma next_chunk_index g t t' :
  valid_datetime t -> next_chunk g t = Ok t' ->
  chunk_index g (dt_date t') = chunk_index g (dt_date t) + 1.
Proof.
  intros Ht Hn. apply valid_datetime_inv in Ht as (Hd & _ & _).
  pose proof (valid_date_inv _ Hd) as (Hy & Hm & Hday).
  destruct g; simpl in Hn.
  - destruct (add_relativedelta_days1 (dt_date t)) as [d'|] eqn:E;
      simpl in Hn; [|discriminate].
    injection Hn as <-. simpl.
    apply add_days1_ok in E as [_ E]; [|assumption].
    now destruct d'.
  - unfold add_relativedelta_months1 in Hn.
    destruct (month (dt_date t) + 1 >? 12) eqn:E1;
      match type of Hn with
      | context [if ?b then _ else _] => destruct b
      end; simpl in Hn; try discriminate; injection Hn as <-; simpl;
      unbool; lia.
Qed.

(** Two dates of the calendar name the same chunk exactly when their
    chunks have the same index. *)
Lemma same_chunk_index g a b :
  valid_date a -> valid_date b ->
  same_chunk g a b <-> chunk_index g a = chunk_index g b.
Proof.
  intros Ha Hb. destruct g; simpl.
  - split; [now intros ->|]. intros Heq.
    pose proof (valid_in_calendar _ Ha) as Hca.
    pose proof (valid_in_calendar _ Hb) as Hcb.
    destruct (date_ltb a b) eqn:E1.
    + apply toordinal_lt in E1; try assumption. lia.
    + apply date_ltb_total in E1 as [->|E2]; [reflexivity|].
      apply toordinal_lt in E2; try assumption. lia.
  - apply valid_date_inv in Ha as (_ & Hma & _).
    apply valid_date_inv in Hb as (_ & Hmb & _). lia.
Qed.

(** The cursors of a run are instants of the calendar before the end, each
    after the start, their chunks following each other one by one; the
    run ends at the first boundary that is not before the end. *)
Lemma run_cursors g stop c cs cf :
  run g stop c cs cf -> valid_datetime c ->
  valid_datetime cf /\ ~ before cf stop
  /\ timestamp_us c <= timestamp_us cf
  /\ chunk_index g (dt_date cf)
     = chunk_index g (dt_date c) + Z.of_nat (length cs)
  /\ forall i x,
       cs !! i = Some x ->
       valid_datetime x /\ before x stop
       /\ timestamp_us c <= timestamp_us x
       /\ ((0 < i)%nat -> timestamp_us c < timestamp_us x)
       /\ chunk_index g (dt_date x) = chunk_index g (dt_date c) + Z.of_nat i.
Proof.
  induction 1 as [c Hn|c c' cs cf Hb Hn Hrun IH]; intros Hc.
  - split; [assumption|]. split; [assumption|]. split; [lia|].
    split; [simpl; lia|]. intros i x Hx. discriminate.
  - pose proof (next_chunk_step g c c' Hc Hn) as (Hv' & _ & _ & _ & _).
    pose proof (next_chunk_later g c c' Hc Hn) as Hlater.
    pose proof (next_chunk_index g c c' Hc Hn) as Hidx.
    destruct (IH Hv') as (Hvf & Hnf & Hle & Hif & Hall).
    unfold before in *.
    split; [exact Hvf|]. split; [exact Hnf|]. split; [lia|].
    split; [rewrite Hif, Hidx; simpl length; lia|].
    intros [|i] x Hx; simpl in Hx.
    + injection Hx as <-.
      split; [assumption|]. split; [assumption|]. split; [lia|].
      split; [lia|]. lia.
    + destruct (Hall i x Hx) as (Hvx & Hbx & Hlx & _ & Hix).
      split; [assumption|]. split; [assumption|]. split; [lia|].
      split; [intros _; lia|]. lia.
Qed.

Lemma run_sorted g stop c cs cf :
  run g stop c cs cf -> valid_datetime c ->
  StronglySorted before (cs ++ [cf]).
Proof.
  induction 1 as [c Hn|c c' cs cf Hb Hn Hrun IH]; intros Hc; simpl.
  - repeat constructor.
  - pose proof (next_chunk_step g c c' Hc Hn) as (Hv' & _ & _ & _ & _).
    pose proof (next_chunk_later g c c' Hc Hn) as Hlater.
    destruct (run_cursors g stop c' cs cf Hrun Hv') as (_ & _ & Hle & _ & Hall).
    constructor; [now apply IH|].
    apply Forall_app. split.
    + apply Forall_lookup. intros i x Hx.
      destruct (Hall i x Hx) as (_ & _ & Hlx & _).
      unfold before in *. lia.
    + repeat constructor. unfold before in *. lia.
Qed.

Lemma steps_lookups self config g start stop cs cf :
  lookups (steps self config g start stop cs cf)
  = (fun c => archive_path self config (dt_date c) g) <$> cs.
Proof.
  induction cs as [|c cs IH]; [reflexivity|]. simpl. f_equal. exact IH.
Qed.

Lemma steps_updates self config g start stop cs cf :
  updates (steps self config g start stop cs cf)
  = (fun c => (timestamp_us c - timestamp_us start,
               timestamp_us stop - timestamp_us start))
    <$> drop 1 (cs ++ [cf]).
Proof.
  induction cs as [|c cs IH]; [reflexivity|].
  change (updates (steps self config g start stop (c :: cs) cf))
    with ((timestamp_us (default cf (head cs)) - timestamp_us start,
           timestamp_us stop - timestamp_us start)
          :: updates (steps self config g start stop cs cf)).
  rewrite IH. simpl. destruct cs as [|c2 cs]; reflexivity.
Qed.

Lemma run_head g stop c cs cf :
  run g stop c cs cf ->
  head cs = (if dt_ltb c stop then Some c else None).
Proof.
  unfold dt_ltb. destruct 1 as [c Hn|c c' cs cf Hb Hn Hrun];
    unfold before in *;
    destruct (Z.ltb_spec (timestamp_us c) (timestamp_us stop));
    simpl; first [reflexivity|lia].
Qed.

(** ** What the builder looks up and returns *)

(** The builder looks up one archive after the other: first that of the
    chunk in which the start lies, then those of the chunks that follow
    it, one by one, each a chunk of the calendar. What it returns are the
    rows of the archives it finds among them, in that order. *)
Theorem _load_ohlcv_chunks self fs config start stop g rows tr :
  valid_datetime start ->
  _load_ohlcv self fs config start stop g = Ok (rows, tr) ->
  exists days,
    lookups tr = (fun d => archive_path self config d g) <$> days
    /\ rows
       = concat (omap (fun d => _load_ohlcv_file self fs config d g) days)
    /\ head days = (if dt_ltb start stop then Some (dt_date start) else None)
    /\ forall i d,
         days !! i = Some d ->
         valid_date d
         /\ chunk_index g d
            = chunk_index g (dt_date start) + Z.of_nat i.
Proof.
  intros Hv Hl.
  apply _load_ohlcv_run in Hl as (cs & cf & Hrun & -> & ->).
  exists (dt_date <$> cs).
  split; [rewrite steps_lookups; now rewrite <- list_fmap_compose|].
  split.
  { f_equal. clear. induction cs as [|c cs IH]; [reflexivity|].
    simpl.
    destruct (_load_ohlcv_file self fs config (dt_date c) g); simpl;
      [f_equal|]; exact IH. }
  split.
  { pose proof (run_head g stop start cs cf Hrun) as Hh.
    destruct cs as [|c0 cs]; simpl in *; destruct (dt_ltb start stop);
      congruence. }
  intros i d Hd. rewrite list_lookup_fmap in Hd.
  destruct (cs !! i) as [x|] eqn:Hx; [|discriminate]. injection Hd as <-.
  destruct (run_cursors g stop start cs cf Hrun Hv) as (_ & _ & _ & _ & Hall).
  destruct (Hall i x Hx) as (Hvx & _ & _ & _ & Hix).
  apply valid_datetime_inv in Hvx as (Hvx & _). split; assumption.
Qed.

(** In one build no archive is looked up twice. *)
Lemma lookups_once self fs config start stop g rows tr :
  valid_datetime start ->
  _load_ohlcv self fs config start stop g = Ok (rows, tr) ->
  NoDup (lookups tr)
  /\ forall p, p ∈ lookups tr ->
       exists d, valid_date d /\ p = archive_path self config d g.
Proof.
  intros Hv Hl.
  apply _load_ohlcv_run in Hl as (cs & cf & Hrun & _ & ->).
  rewrite steps_lookups.
  destruct (run_cursors g stop start cs cf Hrun Hv) as (_ & _ & _ & _ & Hall).
  split.
  - apply NoDup_alt. intros i j p Hi Hj.
    rewrite list_lookup_fmap in Hi, Hj.
    destruct (cs !! i) as [ci|] eqn:Hci; [|discriminate].
    destruct (cs !! j) as [cj|] eqn:Hcj; [|discriminate].
    injection Hi as Hi. injection Hj as Hj.
    destruct (Hall i ci Hci) as (Hvi & _ & _ & _ & Hii).
    destruct (Hall j cj Hcj) as (Hvj & _ & _ & _ & Hij).
    apply valid_datetime_inv in Hvi as (Hvi & _).
    apply valid_datetime_inv in Hvj as (Hvj & _).
    assert (Hsame : same_chunk g (dt_date ci) (dt_date cj)).
    { apply (archive_path_inj self config config g g _ _ Hvi Hvj).
      congruence. }
    apply (same_chunk_index g _ _ Hvi Hvj) in Hsame. lia.
  - intros p Hp. apply list_elem_of_fmap in Hp as (c & -> & Hc).
    apply list_elem_of_lookup in Hc as [i Hi].
    destruct (Hall i c Hi) as (Hvc & _).
    apply valid_datetime_inv in Hvc as (Hvc & _). eauto.
Qed.

Lemma ceil_div_shift a b : 0 < b -> ceil_div (a - b) b = ceil_div a b - 1.
Proof.
  intros Hb. unfold ceil_div.
  replace (- (a - b)) with (- a + 1 * b) by lia.
  rewrite Z.div_add by lia. lia.
Qed.

Lemma ceil_div_one a b : 0 < a <= b -> ceil_div a b = 1.
Proof.
  intros Ha. unfold ceil_div.
  assert (Hq : - a / b = -1); [|lia].
  symmetry. apply (Z.div_unique_pos (- a) b (-1) (b - a)); lia.
Qed.

Lemma next_chunk_daily_next t t' :
  valid_datetime t -> next_chunk DAILY t = Ok t' ->
  timestamp_us t' = timestamp_us t - time_us t + day_us.
Proof.
  intros Ht Hn.
  pose proof (valid_datetime_inv t Ht) as (Hd & _ & _).
  pose proof (next_chunk_step DAILY t t' Ht Hn) as (_ & Htz & Ht0 & _ & _).
  pose proof (next_chunk_index DAILY t t' Ht Hn) as Hidx. simpl in Hidx.
  unfold timestamp_us. rewrite Hidx, Ht0, Htz. lia.
Qed.

Lemma run_daily_length stop c cs cf :
  run DAILY stop c cs cf -> valid_datetime c -> before c stop ->
  Z.of_nat (length cs)
  = ceil_div (timestamp_us stop - (timestamp_us c - time_us c)) day_us.
Proof.
  induction 1 as [c Hn|c c' cs cf Hb Hn Hrun IH]; intros Hc Hlt;
    [contradiction|].
  pose proof (next_chunk_step DAILY c c' Hc Hn) as (Hv' & _ & Ht0 & _ & _).
  pose proof (next_chunk_daily_next c c' Hc Hn) as Hgap.
  pose proof (valid_datetime_inv c Hc) as (_ & Htime & _).
  simpl length. unfold before in *.
  destruct (Z.lt_ge_cases (timestamp_us c') (timestamp_us stop)) as [Hlt'|Hge].
  - rewrite Nat2Z.inj_succ, (IH Hv' Hlt'), Ht0.
    replace (timestamp_us stop - (timestamp_us c' - 0))
      with (timestamp_us stop - (timestamp_us c - time_us c) - day_us) by lia.
    rewrite ceil_div_shift by (unfold day_us; lia). lia.
  - inversion Hrun as [c0 Hn0|c0 c1 cs1 cf1 Hb1]; subst;
      [|unfold before in Hb1; lia].
    simpl. symmetry. apply ceil_div_one. lia.
Qed.

(** For a request with start before end, the Daily build looks up as many
    archives as there are days, begun or whole, from the midnight before
    the start to the end. *)
Theorem _load_ohlcv_daily_lookups self fs config start stop rows tr :
  valid_datetime start -> before start stop ->
  _load_ohlcv self fs config start stop DAILY = Ok (rows, tr) ->
  Z.of_nat (length (lookups tr))
  = ceil_div (timestamp_us stop - (timestamp_us start - time_us start))
      day_us.
Proof.
  intros Hv Hb Hl.
  apply _load_ohlcv_run in Hl as (cs & cf & Hrun & _ & ->).
  rewrite steps_lookups, length_fmap.
  now apply (run_daily_length stop start cs cf).
Qed.

(** The progress of a build: one report for each archive looked up, each
    over the seconds of the request, which are positive, the seconds
    loaded growing from report to report; they stay below the seconds of
    the request, that is below 100 %, until the last report, which is at
    100 % or above. *)
Theorem _load_ohlcv_progress self fs config start stop g rows tr :
  valid_datetime start ->
  _load_ohlcv self fs config start stop g = Ok (rows, tr) ->
  length (updates tr) = length (lookups tr)
  /\ StronglySorted Z.lt (fst <$> updates tr)
  /\ forall i a b,
       updates tr !! i = Some (a, b) ->
       b = timestamp_us stop - timestamp_us start
       /\ 0 < a /\ 0 < b
       /\ (if decide (S i = length (updates tr)) then b <= a else a < b).
Proof.
  intros Hv Hl.
  apply _load_ohlcv_run in Hl as (cs & cf & Hrun & _ & ->).
  rewrite steps_lookups, steps_updates, !length_fmap, length_drop, length_app.
  simpl length.
  split; [lia|].
  pose proof (run_sorted g stop start cs cf Hrun Hv) as Hsorted.
  destruct (run_cursors g stop start cs cf Hrun Hv)
    as (_ & Hnf & Hlf & _ & Hall).
  split.
  - rewrite <- list_fmap_compose.
    assert (Hd : StronglySorted before (drop 1 (cs ++ [cf]))).
    { destruct cs; simpl in *; [constructor|].
      now apply StronglySorted_cons in Hsorted as [_ Hs]. }
    induction Hd as [|x l Hs IH Hx]; simpl; constructor; [assumption|].
    apply Forall_fmap. eapply Forall_impl; [exact Hx|].
    intros y Hy. unfold before in Hy. simpl. lia.
  - intros i a b Hi. rewrite list_lookup_fmap, lookup_drop in Hi.
    destruct ((cs ++ [cf]) !! (1 + i)%nat) as [x|] eqn:Hx; [|discriminate].
    injection Hi as <- <-.
    assert (Hfirst : exists c0, cs !! 0%nat = Some c0).
    { destruct cs as [|c0 cs]; [|eauto].
      simpl in Hx. discriminate. }
    destruct Hfirst as [c0 Hc0].
    destruct (Hall 0%nat c0 Hc0) as (_ & Hb0 & Hl0 & _).
    unfold before in *.
    split; [reflexivity|].
    destruct (decide (S i = length cs + 1 - 1)%nat) as [Hlast|Hmid].
    + rewrite lookup_app_r in Hx by lia.
      replace (1 + i - length cs)%nat with 0%nat in Hx by lia.
      injection Hx as <-. lia.
    + assert (Hlt : (1 + i < length cs)%nat).
      { apply lookup_lt_Some in Hx. rewrite length_app in Hx.
        simpl in Hx. lia. }
      rewrite lookup_app_l in Hx by exact Hlt.
      destruct (Hall (1 + i)%nat x Hx) as (_ & Hbx & _ & Hpos & _).
      specialize (Hpos ltac:(lia)). lia.
Qed.

End WithValues.
End BuilderFacts.

(* ===================================================================== *)
(** * More about [load_ohlcv] *)
(* ===================================================================== *)

Module LoadFacts.
Import Calendar Granularity Enums Frames Adapter Specification Observing.
Import CalendarFacts GranularityFacts FramesFacts AdapterFacts.
Import GranularityMore ArchiveFacts BuilderFacts.

(** ** Joins, row by row *)

Section Join.
Context {L R : Type} (lkey : L -> Z) (rkey : R -> option Z).

(** A left row and a right row of the same key are joined. *)
Lemma join_left_pair left right x y :
  x ∈ left -> y ∈ right -> rkey y = Some (lkey x) ->
  (x, Some y) ∈ join_left lkey rkey left right.
Proof.
  intros Hx Hy Hk. unfold join_left. apply list_elem_of_bind.
  exists x. split; [|exact Hx].
  assert (Hm : y ∈ matching lkey rkey x right)
    by (unfold matching; apply list_elem_of_filter; auto).
  destruct (matching lkey rkey x right) as [|y0 ms]; [inversion Hm|].
  apply list_elem_of_fmap. eauto.
Qed.

(** The join has, for each left row, as many rows as that row has
    matches, and one when it has none. *)
Lemma join_left_length left right :
  length (join_left lkey rkey left right)
  = sum_list_with
      (fun x => Nat.max 1 (length (matching lkey rkey x right))) left.
Proof.
  rewrite <- (length_fmap fst), join_left_fst.
  induction left as [|x left IH]; [reflexivity|].
  cbn [mbind list_bind sum_list_with].
  rewrite length_app, length_replicate, IH. reflexivity.
Qed.

Lemma sum_repeated (n : L -> nat) (h : L -> nat) left :
  sum_list_with h (left ≫= (fun x => replicate (n x) x))
  = sum_list_with (fun x => n x * h x)%nat left.
Proof.
  induction left as [|x left IH]; [reflexivity|].
  cbn [mbind list_bind sum_list_with].
  rewrite sum_list_with_app, IH. f_equal.
  clear. induction (n x) as [|k IHk]; simpl; [reflexivity|]. now rewrite IHk.
Qed.

Lemma join_left_empty left :
  join_left lkey rkey left [] = (fun x => (x, None)) <$> left.
Proof.
  unfold join_left. induction left as [|x left IH]; [reflexivity|].
  cbn [mbind list_bind]. rewrite IH. reflexivity.
Qed.

End Join.

Lemma sum_list_with_ext {A} (f g : A -> nat) l :
  (forall x, f x = g x) -> sum_list_with f l = sum_list_with g l.
Proof.
  intros H. induction l as [|x l IH]; simpl; [reflexivity|].
  now rewrite H, IH.
Qed.

Lemma sum_list_with_fmap {A B} (f : A -> B) (h : B -> nat) l :
  sum_list_with h (f <$> l) = sum_list_with (fun x => h (f x)) l.
Proof.
  induction l as [|x l IH]; [reflexivity|].
  rewrite fmap_cons. cbn [sum_list_with]. now rewrite IH.
Qed.

Lemma sum_list_with_ge {A} (f : A -> nat) l :
  (forall x, (1 <= f x)%nat) -> (length l <= sum_list_with f l)%nat.
Proof.
  intros H. induction l as [|x l IH]; simpl; [lia|]. specialize (H x). lia.
Qed.

Section WithValues.
Context {V : Type} `{!EqDecision V}.

Implicit Types (self : BinanceAdapter) (fs : Store V)
  (config : BinanceDataConfig) (start stop : datetime)
  (g : BinanceDataGranularity).

Lemma matching_select (rows : list (BinanceOHLCV V)) (t : Z) :
  length (matching id date_time t (select_ohlcv <$> rows)) = rows_at rows t.
Proof.
  unfold matching, rows_at, id.
  induction rows as [|r rows IH]; [reflexivity|].
  rewrite fmap_cons, !filter_cons.
  change (date_time (select_ohlcv r)) with (b_date_time r).
  destruct (decide (b_date_time r = Some t)); simpl length; now rewrite IH.
Qed.

Lemma matching_select_pair (rows : list (BinanceOHLCV V))
    (x : Z * option (OHLCVRow V)) :
  length (matching fst date_time x (select_ohlcv <$> rows))
  = rows_at rows x.1.
Proof.
  unfold matching, rows_at.
  induction rows as [|r rows IH]; [reflexivity|].
  rewrite fmap_cons, !filter_cons.
  change (date_time (select_ohlcv r)) with (b_date_time r).
  destruct (decide (b_date_time r = Some x.1)); simpl length; now rewrite IH.
Qed.

(** ** The rows of the series *)

(** The number of rows returned: for each tick of the timeline, the number
    of Daily rows at that tick times the number of Monthly rows at it,
    one standing for none. So there are never fewer rows than ticks: no
    tick is left out. *)
Theorem series_length self fs config start stop dd md out :
  loads self fs config start stop dd md out ->
  let ticks := datetime_range start stop (interval config) in
  length (series out)
  = sum_list_with
      (fun t => Nat.max 1 (rows_at dd t) * Nat.max 1 (rows_at md t))%nat
      ticks
  /\ (length ticks <= length (series out))%nat.
Proof.
  intros (tr1 & tr2 & _ & _ & _ & Hs & _) ticks.
  assert (Hlen : length (series out)
    = sum_list_with
        (fun t => Nat.max 1 (rows_at dd t) * Nat.max 1 (rows_at md t))%nat
        ticks).
  { rewrite Hs, length_fmap. unfold filled_data, fill. fold ticks.
    rewrite length_fmap, join_left_length.
    rewrite (sum_list_with_ext _
      (fun x => Nat.max 1 (rows_at md x.1))) by
      (intros x; now rewrite matching_select_pair).
    rewrite <- (sum_list_with_fmap fst (fun t => Nat.max 1 (rows_at md t))).
    rewrite join_left_fst, sum_repeated.
    apply sum_list_with_ext. intros t. simpl.
    now rewrite matching_select. }
  split; [exact Hlen|].
  rewrite Hlen. apply sum_list_with_ge. intros t. nia.
Qed.

(** Every row returned is at an instant of the request, from the start on
    and before the end; when the start is before the end, the first row
    is at the start. *)
Theorem series_within self fs config start stop dd md out :
  valid_datetime start ->
  loads self fs config start stop dd md out ->
  (forall r, r ∈ series out ->
     exists t, date_time r = Some t
               /\ timestamp_us start <= t < timestamp_us stop)
  /\ (before start stop ->
      exists r, head (series out) = Some r
                /\ date_time r = Some (timestamp_us start)).
Proof.
  intros Hv (tr1 & tr2 & _ & _ & _ & Hs & _).
  apply valid_datetime_inv in Hv as (Hd & _ & _).
  apply valid_in_calendar in Hd.
  split.
  - intros r Hin. rewrite Hs in Hin.
    apply list_elem_of_fmap in Hin as (f & -> & Hf).
    apply fill_elem in Hf as (Ht & _).
    exists (f_date_time f). split; [reflexivity|].
    now apply (datetime_range_bounds start stop (interval config)).
  - intros Hb. unfold before in Hb.
    pose proof (datetime_range_complete start stop (interval config) 0 Hd
                  ltac:(lia)) as Hin.
    rewrite offset_by_0 in Hin by assumption. specialize (Hin Hb).
    destruct (fill_covers _ (select_ohlcv <$> dd) (select_ohlcv <$> md) _ Hin)
      as (f0 & Hf0 & Hk0).
    pose proof (fill_sorted _ (select_ohlcv <$> dd) (select_ohlcv <$> md)
                  (datetime_range_sorted start stop (interval config) Hd))
      as Hsorted.
    rewrite Hs. unfold filled_data.
    destruct (fill (datetime_range start stop (interval config))
                (select_ohlcv <$> dd) (select_ohlcv <$> md))
      as [|f filled] eqn:E; [inversion Hf0|].
    exists (select_filled f). split; [reflexivity|]. simpl. f_equal.
    assert (Hlow : timestamp_us start <= f_date_time f).
    { assert (Hf : f ∈ fill (datetime_range start stop (interval config))
                     (select_ohlcv <$> dd) (select_ohlcv <$> md))
        by (rewrite E; apply list_elem_of_here).
      apply fill_elem in Hf as (Ht & _).
      now apply (datetime_range_bounds start stop (interval config)) in Ht. }
    rewrite fmap_cons in Hsorted.
    apply StronglySorted_cons in Hsorted as [Hall _].
    apply elem_of_cons in Hf0 as [->|Hf0]; [lia|].
    rewrite Forall_forall in Hall.
    specialize (Hall (f_date_time f0)).
    rewrite Hk0 in Hall.
    assert (f_date_time f <= timestamp_us start); [|lia].
    apply Hall. rewrite <- Hk0. apply list_elem_of_fmap. eauto.
Qed.

(** ** Without archives *)

Lemma _load_ohlcv_no_archive self fs config start stop g rows tr :
  no_archive fs ->
  _load_ohlcv self fs config start stop g = Ok (rows, tr) -> rows = [].
Proof.
  intros Hno Hl.
  apply _load_ohlcv_run in Hl as (cs & cf & _ & -> & _).
  replace (omap (fun c => _load_ohlcv_file self fs config (dt_date c) g) cs)
    with (@nil (list (BinanceOHLCV V))); [reflexivity|].
  induction cs as [|c cs IH]; [reflexivity|]. simpl.
  unfold _load_ohlcv_file at 1, _find_file_path. cbv zeta.
  rewrite Hno. simpl. exact IH.
Qed.

(** When the store holds no archive, a request that returns has one row
    for each tick of the timeline, all five fields of it null, and no
    ambiguous entry. *)
Theorem load_ohlcv_no_archive self fs config start stop dd md out :
  no_archive fs ->
  loads self fs config start stop dd md out ->
  date_time <$> series out
    = Some <$> datetime_range start stop (interval config)
  /\ Forall all_null (series out)
  /\ ambiguous_entries out = []
  /\ ambiguous_entries_count out = 0%nat.
Proof.
  intros Hno (tr1 & tr2 & Hd & Hm & _ & Hs & Ha & Hc & _).
  apply (_load_ohlcv_no_archive _ _ _ _ _ _ _ _ Hno) in Hd.
  apply (_load_ohlcv_no_archive _ _ _ _ _ _ _ _ Hno) in Hm.
  subst dd md.
  assert (Hfill : filled_data config start stop [] []
    = (fun t => {| f_date_time := t; f_open := None; f_high := None;
                   f_low := None; f_close := None; f_volume := None;
                   daily := None; monthly := @None (OHLCVRow V) |})
      <$> datetime_range start stop (interval config)).
  { unfold filled_data, fill. simpl.
    rewrite !join_left_empty, <- !list_fmap_compose. reflexivity. }
  rewrite Hc, Ha, Hs, Hfill.
  split; [rewrite <- !list_fmap_compose; reflexivity|].
  split.
  - apply Forall_fmap, Forall_fmap, Forall_forall. intros t _.
    repeat split.
  - assert (Hnone : List.filter ambiguous
      ((fun t => {| f_date_time := t; f_open := None; f_high := None;
                    f_low := None; f_close := None; f_volume := None;
                    daily := None; monthly := @None (OHLCVRow V) |})
       <$> datetime_range start stop (interval config)) = []).
    { clear. induction (datetime_range start stop (interval config))
        as [|t ts IH]; [reflexivity|]. simpl. exact IH. }
    rewrite Hnone. split; reflexivity.
Qed.

(** ** The archives a request reads *)

Lemma _load_ohlcv_file_same self config fs1 fs2 d g :
  same_archives self config fs1 fs2 ->
  _load_ohlcv_file self fs1 config d g = _load_ohlcv_file self fs2 config d g.
Proof.
  intros Hsame. unfold _load_ohlcv_file, _find_file_path. cbv zeta.
  rewrite (Hsame d g).
  destruct (is_not_null (fs2 (archive_path self config d g)));
    [|reflexivity].
  now rewrite (Hsame d g).
Qed.

Lemma load_loop_same self config fs1 fs2 start stop g span fuel :
  same_archives self config fs1 fs2 ->
  forall c st,
    load_loop fuel self fs1 config start stop g span c st
    = load_loop fuel self fs2 config start stop g span c st.
Proof.
  intros Hsame. induction fuel as [|fuel IH]; intros c st; [reflexivity|].
  simpl. destruct (dt_ltb c stop); [|reflexivity].
  rewrite (_load_ohlcv_file_same self config fs1 fs2 _ g Hsame).
  destruct (next_chunk g c) as [c'|e]; [|reflexivity]. simpl.
  destruct (truediv _ _) as [[a b]|e]; [|reflexivity]. simpl.
  apply IH.
Qed.

(** A request reads nothing but the archives of its own configuration:
    in two stores that hold the same archives at the paths of that
    configuration, whatever else they hold, it gives the same result. *)
Theorem load_ohlcv_same_archives self config fs1 fs2 start stop :
  same_archives self config fs1 fs2 ->
  load_ohlcv self fs1 config start stop
  = load_ohlcv self fs2 config start stop.
Proof.
  intros Hsame. unfold load_ohlcv, _load_ohlcv.
  now rewrite !(load_loop_same self config fs1 fs2 start stop _ _ _ Hsame).
Qed.

(** ** When a warning is logged *)

(** There is an ambiguous entry exactly when at some tick of the timeline
    the Daily series and the Monthly series each have a row and the two
    differ in a core field. If the two series agree wherever both have a
    row, nothing is reported. *)
Theorem ambiguous_exactly self fs config start stop dd md out :
  loads self fs config start stop dd md out ->
  ambiguous_entries_count out <> 0%nat
  <-> exists t d m,
        t ∈ datetime_range start stop (interval config)
        /\ d ∈ dd /\ m ∈ md
        /\ b_date_time d = Some t /\ b_date_time m = Some t
        /\ b_core d <> b_core m.
Proof.
  intros (tr1 & tr2 & _ & _ & _ & _ & Ha & Hc & _).
  rewrite Hc, Ha. unfold filled_data.
  set (tl := datetime_range start stop (interval config)).
  split.
  - intros Hne.
    destruct (List.filter ambiguous
                (fill tl (select_ohlcv <$> dd) (select_ohlcv <$> md)))
      as [|f fs'] eqn:E; [contradiction|].
    assert (Hf : In f (List.filter ambiguous
                  (fill tl (select_ohlcv <$> dd) (select_ohlcv <$> md))))
      by (rewrite E; now left).
    apply filter_In in Hf as [Hin Hamb].
    apply list_elem_of_In in Hin.
    rewrite (ambiguous_spec _ _ _ _ Hin) in Hamb.
    apply fill_elem in Hin as (Ht & Hd & Hm & _).
    unfold spec_ambiguous in Hamb.
    destruct (daily f) as [d'|], (monthly f) as [m'|]; try discriminate.
    apply bool_decide_eq_true in Hamb.
    destruct Hd as [Hd Hkd], Hm as [Hm Hkm].
    apply list_elem_of_fmap in Hd as (d & -> & Hd).
    apply list_elem_of_fmap in Hm as (m & -> & Hm).
    exists (f_date_time f), d, m. repeat split; assumption.
  - intros (t & d & m & Ht & Hd & Hm & Hkd & Hkm & Hne).
    assert (H1 : (t, Some (select_ohlcv d))
                 ∈ join_left id date_time tl (select_ohlcv <$> dd)).
    { apply join_left_pair; [exact Ht| |exact Hkd].
      apply list_elem_of_fmap. eauto. }
    assert (H2 : (t, Some (select_ohlcv d), Some (select_ohlcv m))
                 ∈ join_left fst date_time
                     (join_left id date_time tl (select_ohlcv <$> dd))
                     (select_ohlcv <$> md)).
    { apply join_left_pair; [exact H1| |exact Hkm].
      apply list_elem_of_fmap. eauto. }
    set (f := {| f_date_time := t;
                 f_open := coalesce (b_open d) (b_open m);
                 f_high := coalesce (b_high d) (b_high m);
                 f_low := coalesce (b_low d) (b_low m);
                 f_close := coalesce (b_close d) (b_close m);
                 f_volume := coalesce (b_volume d) (b_volume m);
                 daily := Some (select_ohlcv d);
                 monthly := Some (select_ohlcv m) |}).
    assert (Hin : f ∈ fill tl (select_ohlcv <$> dd) (select_ohlcv <$> md)).
    { unfold fill. apply list_elem_of_fmap.
      exists (t, Some (select_ohlcv d), Some (select_ohlcv m)).
      split; [reflexivity|exact H2]. }
    assert (Hamb : ambiguous f = true).
    { rewrite (ambiguous_spec _ _ _ _ Hin). unfold spec_ambiguous, f. simpl.
      apply bool_decide_eq_true. exact Hne. }
    assert (Hf : In f (List.filter ambiguous
                  (fill tl (select_ohlcv <$> dd) (select_ohlcv <$> md)))).
    { apply filter_In. split; [now apply list_elem_of_In|exact Hamb]. }
    destruct (List.filter ambiguous _); [inversion Hf|discriminate].
Qed.

(** ** What [load_ohlcv] raises *)


(** ** The archives a call looks up *)

Lemma lookups_app (a b : list event) :
  lookups (a ++ b) = lookups a ++ lookups b.
Proof.
  unfold lookups. induction a as [|e a IH]; [reflexivity|].
  simpl. destruct e; simpl; [f_equal|]; exact IH.
Qed.

(** A call looks up no archive twice: each of its two builds looks up the
    chunks from that of the start on, one after the other, and the Daily
    and the Monthly archives lie in different folders. *)
Theorem load_ohlcv_lookups_once self fs config start stop dd md out :
  valid_datetime start ->
  loads self fs config start stop dd md out ->
  NoDup (lookups (events out)).
Proof.
  intros Hv (tr1 & tr2 & Hd & Hm & _ & _ & _ & _ & He).
  destruct (lookups_once self fs config start stop DAILY dd tr1 Hv Hd)
    as [Hn1 Hp1].
  destruct (lookups_once self fs config start stop MONTHLY md tr2 Hv Hm)
    as [Hn2 Hp2].
  rewrite He, lookups_app. apply NoDup_app.
  split; [exact Hn1|]. split; [|exact Hn2].
  intros p Hin1 Hin2.
  destruct (Hp1 p Hin1) as (d1 & Hv1 & ->).
  destruct (Hp2 _ Hin2) as (d2 & Hv2 & Heq).
  apply (archive_path_inj self config config DAILY MONTHLY d1 d2 Hv1 Hv2)
    in Heq as (_ & Hg & _).
  discriminate.
Qed.

(** ** Requests off the grid of the archives *)





End WithValues.
End LoadFacts.

(* ===================================================================== *)
(** * These facts on the small archive store *)
(* ===================================================================== *)

Module MoreExamples.
Import Calendar Granularity Enums Frames Adapter Specification Fixture.
Import Observing MoreFixture.
Import AdapterFacts GranularityMore ArchiveFacts BuilderFacts LoadFacts.
Import Examples.

Lemma valid_one_past : valid_datetime one_past.
Proof. by_computing. Defined.

Lemma valid_new_year : valid_date (Date 2020 1 1).
Proof. by_computing. Defined.

Lemma valid_mid_january : valid_date (Date 2020 1 15).
Proof. by_computing. Defined.

Lemma next_chunk_raises_witness :
  valid_datetime last_day
  /\ (next_chunk DAILY last_day = Raise OverflowError
      <-> (DAILY = DAILY /\ dt_date last_day = Date 9999 12 31
           /\ OverflowError = OverflowError)
          \/ (DAILY = MONTHLY /\ year (dt_date last_day) = 9999
              /\ month (dt_date last_day) = 12
              /\ OverflowError = ValueError)).
Proof.
  assert (Hv : valid_datetime last_day) by by_computing.
  split; [exact Hv|].
  exact (next_chunk_raises DAILY last_day OverflowError Hv).
Defined.

Lemma next_chunk_least_witness :
  valid_datetime one_past
  /\ next_chunk MONTHLY one_past = Ok (midnight (Date 2020 2 1) 0)
  /\ boundary MONTHLY (Date 2020 2 1)
  /\ before one_past (midnight (Date 2020 2 1) 0).
Proof.
  assert (Hn : next_chunk MONTHLY one_past = Ok (midnight (Date 2020 2 1) 0))
    by by_computing.
  split; [exact valid_one_past|]. split; [exact Hn|].
  destruct (next_chunk_least MONTHLY one_past _ valid_one_past Hn)
    as (_ & Hb & Hlater & _).
  split; assumption.
Defined.

Lemma next_chunk_gap_witness :
  valid_datetime one_past
  /\ next_chunk DAILY one_past = Ok (midnight (Date 2020 1 2) 0)
  /\ timestamp_us (midnight (Date 2020 1 2) 0) - timestamp_us one_past
     = 1 * day_us - time_us one_past.
Proof.
  assert (Hn : next_chunk DAILY one_past = Ok (midnight (Date 2020 1 2) 0))
    by by_computing.
  split; [exact valid_one_past|]. split; [exact Hn|].
  exact (proj1 (next_chunk_gap DAILY one_past _ valid_one_past Hn)).
Defined.

Lemma file_date_names_chunk_witness :
  valid_date (Date 2020 1 1) /\ valid_date (Date 2020 1 15)
  /\ (file_date MONTHLY (Date 2020 1 1) = file_date MONTHLY (Date 2020 1 15)
      <-> same_chunk MONTHLY (Date 2020 1 1) (Date 2020 1 15)).
Proof.
  split; [exact valid_new_year|]. split; [exact valid_mid_january|].
  exact (file_date_names_chunk MONTHLY _ _ valid_new_year valid_mid_january).
Defined.


Lemma _load_ohlcv_file_chunk_witness :
  valid_date (Date 2020 1 1) /\ valid_date (Date 2020 1 15)
  /\ same_chunk MONTHLY (Date 2020 1 1) (Date 2020 1 15)
  /\ _load_ohlcv_file adapter agreeing btcusdt_1m (Date 2020 1 1) MONTHLY
     = _load_ohlcv_file adapter agreeing btcusdt_1m (Date 2020 1 15) MONTHLY.
Proof.
  assert (Hs : same_chunk MONTHLY (Date 2020 1 1) (Date 2020 1 15))
    by by_computing.
  split; [exact valid_new_year|]. split; [exact valid_mid_january|].
  split; [exact Hs|].
  exact (_load_ohlcv_file_chunk adapter agreeing btcusdt_1m MONTHLY _ _
           valid_new_year valid_mid_january Hs).
Defined.

Lemma _load_ohlcv_chunks_witness :
  valid_datetime midnight_utc
  /\ exists rows tr,
       _load_ohlcv adapter agreeing btcusdt_1m midnight_utc two_past DAILY
       = Ok (rows, tr)
       /\ exists days,
            lookups tr
            = (fun d => archive_path adapter btcusdt_1m d DAILY) <$> days
            /\ head days = Some (Date 2020 1 1).
Proof.
  split; [exact valid_midnight_utc|].
  destruct in_range_two_minutes as (Hs & He & Hy).
  destruct (_load_ohlcv_total adapter agreeing btcusdt_1m midnight_utc
              two_past DAILY Hs He Hy) as (rows & tr & Hl).
  exists rows, tr. split; [exact Hl|].
  destruct (_load_ohlcv_chunks adapter agreeing btcusdt_1m midnight_utc
              two_past DAILY rows tr valid_midnight_utc Hl)
    as (days & Hlook & _ & Hhead & _).
  exists days. split; [exact Hlook|exact Hhead].
Defined.

Lemma _load_ohlcv_daily_lookups_witness :
  valid_datetime midnight_utc /\ before midnight_utc two_past
  /\ exists rows tr,
       _load_ohlcv adapter agreeing btcusdt_1m midnight_utc two_past DAILY
       = Ok (rows, tr)
       /\ Z.of_nat (length (lookups tr)) = 1.
Proof.
  assert (Hb : before midnight_utc two_past) by by_computing.
  split; [exact valid_midnight_utc|]. split; [exact Hb|].
  destruct in_range_two_minutes as (Hs & He & Hy).
  destruct (_load_ohlcv_total adapter agreeing btcusdt_1m midnight_utc
              two_past DAILY Hs He Hy) as (rows & tr & Hl).
  exists rows, tr. split; [exact Hl|].
  rewrite (_load_ohlcv_daily_lookups adapter agreeing btcusdt_1m midnight_utc
             two_past rows tr valid_midnight_utc Hb Hl).
  by_computing.
Defined.

Lemma _load_ohlcv_progress_witness :
  valid_datetime midnight_utc
  /\ exists rows tr,
       _load_ohlcv adapter agreeing btcusdt_1m midnight_utc two_past MONTHLY
       = Ok (rows, tr)
       /\ length (updates tr) = length (lookups tr).
Proof.
  split; [exact valid_midnight_utc|].
  destruct in_range_two_minutes as (Hs & He & Hy).
  destruct (_load_ohlcv_total adapter agreeing btcusdt_1m midnight_utc
              two_past MONTHLY Hs He Hy) as (rows & tr & Hl).
  exists rows, tr. split; [exact Hl|].
  exact (proj1 (_load_ohlcv_progress adapter agreeing btcusdt_1m midnight_utc
                  two_past MONTHLY rows tr valid_midnight_utc Hl)).
Defined.

Lemma series_length_witness :
  exists dd md out,
    loads adapter duplicated btcusdt_1m midnight_utc two_past dd md out
    /\ (length (datetime_range midnight_utc two_past (interval btcusdt_1m))
        <= length (series out))%nat.
Proof.
  destruct (load_ohlcv_total adapter duplicated btcusdt_1m midnight_utc
              two_past in_range_two_minutes) as (dd & md & out & Hl).
  exists dd, md, out. split; [exact Hl|].
  exact (proj2 (series_length adapter duplicated btcusdt_1m midnight_utc
                  two_past dd md out Hl)).
Defined.

Lemma series_within_witness :
  valid_datetime midnight_utc /\ before midnight_utc two_past
  /\ exists dd md out,
       loads adapter agreeing btcusdt_1m midnight_utc two_past dd md out
       /\ exists r, head (series out) = Some r
                    /\ date_time r = Some (timestamp_us midnight_utc).
Proof.
  assert (Hb : before midnight_utc two_past) by by_computing.
  split; [exact valid_midnight_utc|]. split; [exact Hb|].
  destruct (load_ohlcv_total adapter agreeing btcusdt_1m midnight_utc
              two_past in_range_two_minutes) as (dd & md & out & Hl).
  exists dd, md, out. split; [exact Hl|].
  exact (proj2 (series_within adapter agreeing btcusdt_1m midnight_utc
                  two_past dd md out valid_midnight_utc Hl) Hb).
Defined.

Lemma no_archive_none : no_archive no_archives.
Proof.
  intros p. unfold no_archives, store.
  destruct (bool_decide (p = daily_archive)); [reflexivity|].
  destruct (bool_decide (p = monthly_archive)); reflexivity.
Defined.

Lemma load_ohlcv_no_archive_witness :
  no_archive no_archives
  /\ exists dd md out,
       loads adapter no_archives btcusdt_1m midnight_utc two_past dd md out
       /\ Forall all_null (series out)
       /\ ambiguous_entries_count out = 0%nat.
Proof.
  split; [exact no_archive_none|].
  destruct (load_ohlcv_total adapter no_archives btcusdt_1m midnight_utc
              two_past in_range_two_minutes) as (dd & md & out & Hl).
  exists dd, md, out. split; [exact Hl|].
  destruct (load_ohlcv_no_archive adapter no_archives btcusdt_1m midnight_utc
              two_past dd md out no_archive_none Hl) as (_ & Hn & _ & Hc).
  split; assumption.
Defined.



Lemma same_archives_other_symbol :
  same_archives adapter btcusdt_1m agreeing with_other_symbol.
Proof.
  intros d g. unfold with_other_symbol.
  case_bool_decide as Hp; [|reflexivity].
  exfalso. unfold archive_path, other_archive in Hp. simpl in Hp.
  injection Hp as _ _ Hs _. discriminate.
Defined.

Lemma load_ohlcv_same_archives_witness :
  same_archives adapter btcusdt_1m agreeing with_other_symbol
  /\ load_ohlcv adapter agreeing btcusdt_1m midnight_utc two_past
     = load_ohlcv adapter with_other_symbol btcusdt_1m midnight_utc two_past.
Proof.
  split; [exact same_archives_other_symbol|].
  exact (load_ohlcv_same_archives adapter btcusdt_1m agreeing
           with_other_symbol midnight_utc two_past
           same_archives_other_symbol).
Defined.

Lemma ambiguous_exactly_witness :
  exists dd md out,
    loads adapter conflicting btcusdt_1m midnight_utc two_past dd md out
    /\ (ambiguous_entries_count out <> 0%nat
        <-> exists t d m,
              t ∈ datetime_range midnight_utc two_past (interval btcusdt_1m)
              /\ d ∈ dd /\ m ∈ md
              /\ b_date_time d = Some t /\ b_date_time m = Some t
              /\ b_core d <> b_core m).
Proof.
  destruct (load_ohlcv_total adapter conflicting btcusdt_1m midnight_utc
              two_past in_range_two_minutes) as (dd & md & out & Hl).
  exists dd, md, out. split; [exact Hl|].
  exact (ambiguous_exactly adapter conflicting btcusdt_1m midnight_utc
           two_past dd md out Hl).
Defined.


Lemma load_ohlcv_lookups_once_witness :
  valid_datetime midnight_utc
  /\ exists dd md out,
       loads adapter agreeing btcusdt_1m midnight_utc two_past dd md out
       /\ NoDup (lookups (events out)).
Proof.
  split; [exact valid_midnight_utc|].
  destruct (load_ohlcv_total adapter agreeing btcusdt_1m midnight_utc
              two_past in_range_two_minutes) as (dd & md & out & Hl).
  exists dd, md, out. split; [exact Hl|].
  exact (load_ohlcv_lookups_once adapter agreeing btcusdt_1m midnight_utc
           two_past dd md out valid_midnight_utc Hl).
Defined.

End MoreExamples.
